(** * kiro-proxy: credential resolution and configuration lifecycle

    A shallow embedding of [kiro/cli.py]: the credential locator
    ([find_kiro_ide_credentials]), the configuration store ([get_config],
    [save_config]) and the [install] and [start] commands, together with the
    fragment of CPython's [json], [secrets] and file API they rely on.  The
    interactive [init] and the read-only [status] are not modelled.

    Conventions.
    - A Python [str] is a list of code points ([pystr]); [u "..."] turns an
      ASCII literal into one.
    - The file system is a finite map from path strings to nodes: regular
      files with their text, and directories with the names a scan reports.
      Permissions and symbolic links are not modelled; a file can fail to
      be read because it is missing, a directory, or not UTF-8.
    - What the operating system decides ([Path.home], [Path.resolve], the
      string form of a [Path], the clock, [os.urandom]) is gathered in a
      [host].
    - The JSON decoder follows CPython's [json.decoder] and [json.scanner];
      the interpreter's recursion limit is not modelled.
    - A command yields the lines it shows to the operator and an outcome:
      a normal return, [sys.exit], an uncaught exception, or (for [start])
      the call into the server. *)

From Stdlib Require Import ZArith NArith List String Ascii Bool Lia.
From Stdlib Require Import DecimalPos DecimalZ.
From stdpp Require Import gmap list.
Import ListNotations.

Set Warnings "-register-all".
Local Open Scope N_scope.

(** ** Python strings *)

Definition pystr := list N.

Definition u (s : string) : pystr :=
  List.map N_of_ascii (list_ascii_of_string s).

(** [p] is a prefix of [s] ([s.startswith(p)], [s[i:i+len(p)] == p]). *)
Fixpoint startswith (p s : pystr) : bool :=
  match p, s with
  | [], _ => true
  | _ :: _, [] => false
  | a :: p', b :: s' => (a =? b) && startswith p' s'
  end.

(** [needle in hay] on two [str]: substring search. *)
Fixpoint contains (needle hay : pystr) : bool :=
  startswith needle hay ||
  match hay with
  | [] => false
  | _ :: t => contains needle t
  end.

(** [s.endswith(suffix)], used by the [*.json] glob pattern. *)
Definition endswith (suffix s : pystr) : bool :=
  startswith (rev suffix) (rev s).

(** ** JSON values, as [json.load] builds them

    A float is kept as the text of its literal: its numeric value is never
    needed here beyond its truth value (see [host]). *)

Inductive json :=
| JNull
| JBool (b : bool)
| JInt (z : Z)
| JFloat (lexeme : pystr)
| JStr (s : pystr)
| JArr (items : list json)
| JObj (members : list (pystr * json)).

(** A Python [dict] with [str] keys: insertion-ordered, keys unique. *)
Definition dict := list (pystr * json).

Definition pystr_eqb (a b : pystr) : bool :=
  bool_decide (a = b).

(** [d.get(k)] / [k in d]. *)
Fixpoint dict_get (k : pystr) (d : dict) : option json :=
  match d with
  | [] => None
  | (k', v) :: d' => if pystr_eqb k k' then Some v else dict_get k d'
  end.

(** [d[k] = v]: replaces the value in place when the key is there, appends
    the pair otherwise. *)
Fixpoint dict_set (k : pystr) (v : json) (d : dict) : dict :=
  match d with
  | [] => [(k, v)]
  | (k', v') :: d' =>
      if pystr_eqb k k' then (k', v) :: d' else (k', v') :: dict_set k v d'
  end.

(** ** [json.load]: the decoder *)

Module Decoder.

(** The outcome of scanning at one position: a value and the text after it,
    a [JSONDecodeError], or the recursion budget used up. *)
Inductive scan (A : Type) :=
| Scanned (a : A) (rest : pystr)
| Invalid
| Exhausted.
Arguments Scanned {A} a rest.
Arguments Invalid {A}.
Arguments Exhausted {A}.

(** [WHITESPACE]: space, tab, line feed, carriage return. *)
Definition is_ws (c : N) : bool :=
  (c =? 32) || (c =? 9) || (c =? 10) || (c =? 13).

Fixpoint skip_ws (s : pystr) : pystr :=
  match s with
  | c :: r => if is_ws c then skip_ws r else s
  | [] => []
  end.

Definition hexval (c : N) : option N :=
  if (48 <=? c) && (c <=? 57) then Some (c - 48)
  else if (65 <=? c) && (c <=? 70) then Some (c - 55)
  else if (97 <=? c) && (c <=? 102) then Some (c - 87)
  else None.

(** [_decode_uXXXX]: exactly four hexadecimal digits. *)
Definition hex4 (a b c d : N) : option N :=
  match hexval a, hexval b, hexval c, hexval d with
  | Some x, Some y, Some z, Some w => Some (((x * 16 + y) * 16 + z) * 16 + w)
  | _, _, _, _ => None
  end.

(** [BACKSLASH]: the one-character escapes. *)
Definition backslash (e : N) : option N :=
  if e =? 34 then Some 34          (* quote *)
  else if e =? 92 then Some 92     (* backslash *)
  else if e =? 47 then Some 47     (* slash *)
  else if e =? 98 then Some 8      (* b *)
  else if e =? 102 then Some 12    (* f *)
  else if e =? 110 then Some 10    (* n *)
  else if e =? 114 then Some 13    (* r *)
  else if e =? 116 then Some 9     (* t *)
  else None.

Definition is_high_surrogate (c : N) : bool := (55296 <=? c) && (c <=? 56319).
Definition is_low_surrogate (c : N) : bool := (56320 <=? c) && (c <=? 57343).

Definition join_surrogates (hi lo : N) : N :=
  65536 + ((hi - 55296) * 1024 + (lo - 56320)).

Definition cons_char (c : N) (r : option (pystr * pystr)) : option (pystr * pystr) :=
  match r with
  | Some (s, rest) => Some (c :: s, rest)
  | None => None
  end.

(** [scanstring] (strict mode), entered just after the opening quote:
    the decoded string and the text after the closing quote. *)
Fixpoint scanstring (s : pystr) : option (pystr * pystr) :=
  match s with
  | [] => None                                   (* unterminated *)
  | c :: r =>
      if c =? 34 then Some ([], r)
      else if c =? 92 then
        match r with
        | [] => None
        | e :: r1 =>
            if e =? 117 then
              match r1 with
              | h1 :: h2 :: h3 :: h4 :: r2 =>
                  match hex4 h1 h2 h3 h4 with
                  | None => None
                  | Some uni =>
                      match r2 with
                      | b :: v :: l1 :: l2 :: l3 :: l4 :: r3 =>
                          if is_high_surrogate uni && (b =? 92) && (v =? 117) then
                            match hex4 l1 l2 l3 l4 with
                            | None => None
                            | Some uni2 =>
                                if is_low_surrogate uni2
                                then cons_char (join_surrogates uni uni2) (scanstring r3)
                                else cons_char uni (scanstring r2)
                            end
                          else cons_char uni (scanstring r2)
                      | _ => cons_char uni (scanstring r2)
                      end
                  end
              | _ => None
              end
            else
              match backslash e with
              | Some c' => cons_char c' (scanstring r1)
              | None => None
              end
        end
      else if c <? 32 then None                  (* control character *)
      else cons_char c (scanstring r)
  end.

Definition is_digit (c : N) : bool := (48 <=? c) && (c <=? 57).

(** The longest run of digits at the front, and what follows it. *)
Fixpoint span_digits (s : pystr) : pystr * pystr :=
  match s with
  | c :: r =>
      if is_digit c then let (ds, rest) := span_digits r in (c :: ds, rest)
      else ([], s)
  | [] => ([], [])
  end.

Definition digit_of (c : N) (k : Decimal.uint) : Decimal.uint :=
  if c =? 48 then Decimal.D0 k else if c =? 49 then Decimal.D1 k
  else if c =? 50 then Decimal.D2 k else if c =? 51 then Decimal.D3 k
  else if c =? 52 then Decimal.D4 k else if c =? 53 then Decimal.D5 k
  else if c =? 54 then Decimal.D6 k else if c =? 55 then Decimal.D7 k
  else if c =? 56 then Decimal.D8 k else Decimal.D9 k.

Definition uint_of_digits (ds : pystr) : Decimal.uint :=
  foldr digit_of Decimal.Nil ds.

(** [int(text)] on the integer group of [NUMBER_RE]. *)
Definition int_of_lexeme (neg : bool) (ds : pystr) : Z :=
  Z.of_int (if neg then Decimal.Neg (uint_of_digits ds)
            else Decimal.Pos (uint_of_digits ds)).

(** The integer group of [NUMBER_RE]: an optional minus sign, then either a
    single 0 or a digit 1-9 followed by any digits.  Sign, digits, rest. *)
Definition scan_integer (s : pystr) : option (bool * pystr * pystr) :=
  let (neg, r) :=
    match s with
    | c :: r' => if c =? 45 then (true, r') else (false, s)
    | [] => (false, s)
    end in
  match r with
  | c :: r' =>
      if c =? 48 then Some (neg, [48], r')
      else if is_digit c then
        let (ds, rest) := span_digits r' in Some (neg, c :: ds, rest)
      else None
  | [] => None
  end.

(** The fraction group: a dot and at least one digit, or nothing. *)
Definition scan_frac (s : pystr) : pystr * pystr :=
  match s with
  | c :: r =>
      if c =? 46 then
        match span_digits r with
        | ([], _) => ([], s)
        | (ds, rest) => (c :: ds, rest)
        end
      else ([], s)
  | [] => ([], s)
  end.

(** The exponent group: e or E, an optional sign and at least one digit,
    or nothing. *)
Definition scan_exp (s : pystr) : pystr * pystr :=
  match s with
  | c :: r =>
      if (c =? 101) || (c =? 69) then
        let (sg, r1) :=
          match r with
          | g :: r' => if (g =? 43) || (g =? 45) then ([g], r') else ([], r)
          | [] => ([], r)
          end in
        match span_digits r1 with
        | ([], _) => ([], s)
        | (ds, rest) => (c :: sg ++ ds, rest)
        end
      else ([], s)
  | [] => ([], s)
  end.

(** [match_number] and what [scan_once] makes of it: an [int] when there is
    neither fraction nor exponent, a [float] otherwise. *)
Definition scan_number (s : pystr) : option (json * pystr) :=
  match scan_integer s with
  | None => None
  | Some (neg, ds, r) =>
      let (frac, r1) := scan_frac r in
      let (ex, r2) := scan_exp r1 in
      match frac, ex with
      | [], [] => Some (JInt (int_of_lexeme neg ds), r2)
      | _, _ => Some (JFloat ((if neg then [45] else []) ++ ds ++ frac ++ ex), r2)
      end
  end.

(** The scalar cases of [scan_once]: literals and numbers. *)
Definition scan_atom (s : pystr) : scan json :=
  if startswith (u "null") s then Scanned JNull (drop 4 s)
  else if startswith (u "true") s then Scanned (JBool true) (drop 4 s)
  else if startswith (u "false") s then Scanned (JBool false) (drop 5 s)
  else
    match scan_number s with
    | Some (v, r) => Scanned v r
    | None =>
        if startswith (u "NaN") s then Scanned (JFloat (u "NaN")) (drop 3 s)
        else if startswith (u "Infinity") s then Scanned (JFloat (u "Infinity")) (drop 8 s)
        else if startswith (u "-Infinity") s then Scanned (JFloat (u "-Infinity")) (drop 9 s)
        else Invalid
    end.

(** [scan_once], [JSONObject] and [JSONArray].  [fuel] bounds the number of
    nested calls; of two nested calls at least one consumes a character, so
    twice the length of the text plus one is always enough
    ([loads_never_exhausted]).

    [obj_members] is entered just after the opening quote of a key,
    [arr_items] at the first character of an item. *)
Fixpoint scan_once (fuel : nat) (s : pystr) {struct fuel} : scan json :=
  match fuel with
  | O => Exhausted
  | S f =>
      match s with
      | [] => Invalid
      | c :: r =>
          if c =? 34 then
            match scanstring r with
            | Some (str, r') => Scanned (JStr str) r'
            | None => Invalid
            end
          else if c =? 123 then
            match skip_ws r with
            | d :: r' =>
                if d =? 125 then Scanned (JObj []) r'
                else if d =? 34 then obj_members f [] r'
                else Invalid
            | [] => Invalid
            end
          else if c =? 91 then
            match skip_ws r with
            | d :: r' =>
                if d =? 93 then Scanned (JArr []) r'
                else arr_items f [] (d :: r')
            | [] => Invalid
            end
          else scan_atom s
      end
  end
with obj_members (fuel : nat) (acc : dict) (s : pystr) {struct fuel} : scan json :=
  match fuel with
  | O => Exhausted
  | S f =>
      match scanstring s with
      | None => Invalid
      | Some (key, r) =>
          match skip_ws r with
          | c :: r1 =>
              if c =? 58 then
                match scan_once f (skip_ws r1) with
                | Scanned v r2 =>
                    match skip_ws r2 with
                    | d :: r3 =>
                        if d =? 125 then Scanned (JObj (dict_set key v acc)) r3
                        else if d =? 44 then
                          match skip_ws r3 with
                          | q :: r4 =>
                              if q =? 34 then obj_members f (dict_set key v acc) r4
                              else Invalid
                          | [] => Invalid
                          end
                        else Invalid
                    | [] => Invalid
                    end
                | Invalid => Invalid
                | Exhausted => Exhausted
                end
              else Invalid
          | [] => Invalid
          end
      end
  end
with arr_items (fuel : nat) (acc : list json) (s : pystr) {struct fuel} : scan json :=
  match fuel with
  | O => Exhausted
  | S f =>
      match scan_once f s with
      | Scanned v r =>
          match skip_ws r with
          | d :: r1 =>
              if d =? 93 then Scanned (JArr (acc ++ [v])) r1
              else if d =? 44 then arr_items f (acc ++ [v]) (skip_ws r1)
              else Invalid
          | [] => Invalid
          end
      | Invalid => Invalid
      | Exhausted => Exhausted
      end
  end.

(** [json.loads(s)]: [None] stands for [JSONDecodeError].  A text that
    starts with a byte order mark is refused; after the value only
    whitespace may follow. *)
Definition loads (s : pystr) : option json :=
  if startswith [65279] s then None
  else
    match scan_once (S (2 * length s)) (skip_ws s) with
    | Scanned v r =>
        match skip_ws r with
        | [] => Some v
        | _ :: _ => None
        end
    | Invalid => None
    | Exhausted => None
    end.

End Decoder.

(** ** [json.dump(config, f, indent=2, ensure_ascii=False)]: the encoder

    [save_config] is only ever given a dictionary whose values are [str]
    or [int]; the encoder is modelled on those. *)

Inductive pyval :=
| VStr (s : pystr)
| VInt (z : Z).

Definition config := list (pystr * pyval).

Definition json_of_pyval (v : pyval) : json :=
  match v with
  | VStr s => JStr s
  | VInt z => JInt z
  end.

Definition json_of_config (c : config) : json :=
  JObj (List.map (fun kv => (fst kv, json_of_pyval (snd kv))) c).

Module Encoder.

Definition hexdigit (n : N) : N :=
  if n <? 10 then 48 + n else 87 + n.

(** [ESCAPE_DCT] with [ensure_ascii=False]: the quote, the backslash and
    the control characters are escaped, every other character is copied. *)
Definition escape_char (c : N) : pystr :=
  if c =? 34 then [92; 34]
  else if c =? 92 then [92; 92]
  else if c =? 10 then [92; 110]
  else if c =? 13 then [92; 114]
  else if c =? 9 then [92; 116]
  else if c =? 8 then [92; 98]
  else if c =? 12 then [92; 102]
  else if c <? 32 then [92; 117; 48; 48; hexdigit (c / 16); hexdigit (c mod 16)]
  else [c].

Definition encode_basestring (s : pystr) : pystr :=
  34 :: flat_map escape_char s ++ [34].

Fixpoint digits_of_uint (d : Decimal.uint) : pystr :=
  match d with
  | Decimal.Nil => []
  | Decimal.D0 k => 48 :: digits_of_uint k
  | Decimal.D1 k => 49 :: digits_of_uint k
  | Decimal.D2 k => 50 :: digits_of_uint k
  | Decimal.D3 k => 51 :: digits_of_uint k
  | Decimal.D4 k => 52 :: digits_of_uint k
  | Decimal.D5 k => 53 :: digits_of_uint k
  | Decimal.D6 k => 54 :: digits_of_uint k
  | Decimal.D7 k => 55 :: digits_of_uint k
  | Decimal.D8 k => 56 :: digits_of_uint k
  | Decimal.D9 k => 57 :: digits_of_uint k
  end.

(** [int.__repr__] *)
Definition int_repr (z : Z) : pystr :=
  match Z.to_int z with
  | Decimal.Pos d => digits_of_uint d
  | Decimal.Neg d => 45 :: digits_of_uint d
  end.

Definition encode_value (v : pyval) : pystr :=
  match v with
  | VStr s => encode_basestring s
  | VInt z => int_repr z
  end.

(** One [key: value] item; the key separator is a colon and a space. *)
Definition encode_item (kv : pystr * pyval) : pystr :=
  encode_basestring (fst kv) ++ [58; 32] ++ encode_value (snd kv).

(** The items of a dictionary at nesting level 1: each on its own line,
    indented by two spaces, separated by a comma. *)
Fixpoint encode_items (c : config) : pystr :=
  match c with
  | [] => []
  | [kv] => encode_item kv
  | kv :: c' => encode_item kv ++ [44; 10; 32; 32] ++ encode_items c'
  end.

Definition dumps (c : config) : pystr :=
  match c with
  | [] => [123; 125]
  | _ :: _ => [123; 10; 32; 32] ++ encode_items c ++ [10; 125]
  end.

End Encoder.

(** ** [secrets.token_urlsafe] *)

(** The URL-safe base64 alphabet: A-Z, a-z, 0-9, minus, underscore. *)
Definition b64url_char (n : N) : N :=
  if n <? 26 then 65 + n
  else if n <? 52 then 97 + (n - 26)
  else if n <? 62 then 48 + (n - 52)
  else if n =? 62 then 45
  else 95.

(** [base64.urlsafe_b64encode(bs).rstrip(b'=')] on byte values. *)
Fixpoint b64url (bs : list N) : pystr :=
  match bs with
  | [] => []
  | [a] => [b64url_char (a / 4); b64url_char ((a mod 4) * 16)]
  | [a; b] =>
      [b64url_char (a / 4); b64url_char ((a mod 4) * 16 + b / 16);
       b64url_char ((b mod 16) * 4)]
  | a :: b :: c :: r =>
      [b64url_char (a / 4); b64url_char ((a mod 4) * 16 + b / 16);
       b64url_char ((b mod 16) * 4 + c / 64); b64url_char (c mod 64)]
      ++ b64url r
  end.

(** [token_urlsafe(nbytes)] encodes the bytes [token_bytes(nbytes)] drew. *)
Definition token_urlsafe (bytes : list Byte.byte) : pystr :=
  b64url (List.map Byte.to_N bytes).

(** ** The host: what the operating system and the clock contribute *)

Record host := {
  (** [str(Path.home())] *)
  home : pystr;
  (** [str(Path(s).resolve())] *)
  resolve : pystr -> pystr;
  (** [str(Path(s))] *)
  path_of : pystr -> pystr;
  (** [float(lexeme) == 0.0] *)
  float_is_zero : pystr -> bool;
  (** the modification time a file written now receives *)
  clock : Z;
  (** the bytes [os.urandom] delivers, by position *)
  urandom : nat -> Byte.byte
}.

(** [secrets.token_bytes(n)] *)
Definition token_bytes (h : host) (n : nat) : list Byte.byte :=
  List.map (urandom h) (seq 0 n).

(** [parent / name] *)
Definition joinpath (parent name : pystr) : pystr :=
  parent ++ [47] ++ name.

(** ** The file system *)

Inductive content :=
| Text (t : pystr)                  (* what reading the file as UTF-8 text yields *)
| Undecodable                       (* bytes that are not UTF-8 *)
| Directory (entries : list pystr). (* names, in the order a scan reports them *)

Record node := { st_mtime : Z; body : content }.

Abbreviation filesystem := (gmap pystr node).

Inductive exn :=
| FileNotFoundError
| FileExistsError
| IsADirectoryError
| NotADirectoryError
| UnicodeDecodeError
| UnicodeEncodeError
| TypeError
| AttributeError.

Inductive result (A : Type) :=
| Ok (a : A)
| Raise (e : exn).
Arguments Ok {A} a.
Arguments Raise {A} e.

(** [path.exists()] *)
Definition exists_ (disk : filesystem) (p : pystr) : bool :=
  bool_decide (is_Some (disk !! p)).

(** [with open(p, 'r', encoding='utf-8') as f: f.read()] *)
Definition read_text (disk : filesystem) (p : pystr) : result pystr :=
  match disk !! p with
  | None => Raise FileNotFoundError
  | Some {| body := Directory _ |} => Raise IsADirectoryError
  | Some {| body := Undecodable |} => Raise UnicodeDecodeError
  | Some {| body := Text t |} => Ok t
  end.

(** [path.stat().st_mtime] *)
Definition stat_mtime (disk : filesystem) (p : pystr) : result Z :=
  match disk !! p with
  | None => Raise FileNotFoundError
  | Some n => Ok (st_mtime n)
  end.

(** [list(d.glob("*.json"))]: the entries of [d] whose name ends in
    [.json], in scan order; nothing when [d] is not a directory. *)
Definition glob_json (disk : filesystem) (d : pystr) : list pystr :=
  match disk !! d with
  | Some {| body := Directory entries |} =>
      List.map (joinpath d) (List.filter (endswith (u ".json")) entries)
  | _ => []
  end.

(** A text can be written as UTF-8 unless it holds a surrogate. *)
Definition encodable (t : pystr) : bool :=
  forallb (fun c => (c <? 55296) || (57343 <? c)) t.

(** [d.mkdir(parents=True, exist_ok=True)] for [d = parent / name]. *)
Definition mkdir_p (h : host) (disk : filesystem) (parent name : pystr)
  : result filesystem :=
  let d := joinpath parent name in
  let fresh := {| st_mtime := clock h; body := Directory [] |} in
  match disk !! d with
  | Some {| body := Directory _ |} => Ok disk
  | Some _ => Raise FileExistsError
  | None =>
      match disk !! parent with
      | Some {| body := Directory es |} =>
          Ok (<[d := fresh]>
                (<[parent := {| st_mtime := clock h; body := Directory (es ++ [name]) |}]> disk))
      | Some _ => Raise NotADirectoryError
      | None =>
          Ok (<[d := fresh]>
                (<[parent := {| st_mtime := clock h; body := Directory [name] |}]> disk))
      end
  end.

(** [with open(dir / name, 'w', encoding='utf-8') as f: f.write(t)] *)
Definition write_text (h : host) (disk : filesystem) (dir name t : pystr)
  : result filesystem :=
  let p := joinpath dir name in
  match disk !! dir with
  | None => Raise FileNotFoundError
  | Some {| body := Directory es |} =>
      match disk !! p with
      | Some {| body := Directory _ |} => Raise IsADirectoryError
      | Some _ =>
          if encodable t
          then Ok (<[p := {| st_mtime := clock h; body := Text t |}]> disk)
          else Raise UnicodeEncodeError
      | None =>
          if encodable t
          then Ok (<[p := {| st_mtime := clock h; body := Text t |}]>
                     (<[dir := {| st_mtime := clock h; body := Directory (es ++ [name]) |}]> disk))
          else Raise UnicodeEncodeError
      end
  | Some _ => Raise NotADirectoryError
  end.

(** ** The credential locator: [find_kiro_ide_credentials] *)

(** ['accessToken' in content or 'refreshToken' in content] *)
Definition marker_check (text : pystr) : bool :=
  contains (u "accessToken") text || contains (u "refreshToken") text.

(** The body of both loops: open, read, test; any exception skips the file. *)
Definition has_marker (disk : filesystem) (p : pystr) : bool :=
  match read_text disk p with
  | Ok text => marker_check text
  | Raise _ => false
  end.

Fixpoint first_with_marker (disk : filesystem) (ps : list pystr) : option pystr :=
  match ps with
  | [] => None
  | p :: rest => if has_marker disk p then Some p else first_with_marker disk rest
  end.

(** The sort keys [x.stat().st_mtime], computed for every file before the
    sort; a failing [stat] raises. *)
Fixpoint with_mtimes (disk : filesystem) (ps : list pystr) : result (list (Z * pystr)) :=
  match ps with
  | [] => Ok []
  | p :: rest =>
      match stat_mtime disk p with
      | Raise e => Raise e
      | Ok m =>
          match with_mtimes disk rest with
          | Raise e => Raise e
          | Ok keyed => Ok ((m, p) :: keyed)
          end
      end
  end.

(** [list.sort(key=..., reverse=True)]: a stable sort, largest key first;
    files with equal keys keep their relative order. *)
Fixpoint insert_desc (x : Z * pystr) (l : list (Z * pystr)) : list (Z * pystr) :=
  match l with
  | [] => [x]
  | y :: l' => if (fst x <? fst y)%Z then y :: insert_desc x l' else x :: l
  end.

Definition sort_desc (l : list (Z * pystr)) : list (Z * pystr) :=
  foldr insert_desc [] l.

Definition cache_dir (h : host) : pystr :=
  joinpath (joinpath (joinpath (home h) (u ".aws")) (u "sso")) (u "cache").

Definition possible_paths (h : host) : list pystr :=
  [joinpath (cache_dir h) (u "kiro-auth-token.json")].

Definition find_kiro_ide_credentials (h : host) (disk : filesystem)
  : result (option pystr) :=
  match first_with_marker disk (List.filter (exists_ disk) (possible_paths h)) with
  | Some p => Ok (Some p)
  | None =>
      if exists_ disk (cache_dir h) then
        match glob_json disk (cache_dir h) with
        | [] => Ok None
        | json_files =>
            match with_mtimes disk json_files with
            | Raise e => Raise e
            | Ok keyed => Ok (first_with_marker disk (List.map snd (sort_desc keyed)))
            end
        end
      else Ok None
  end.

(** ** The configuration store: [get_config], [save_config] *)

Definition CONFIG_DIR (h : host) : pystr := joinpath (home h) (u ".kiro-proxy").
Definition CONFIG_FILE (h : host) : pystr := joinpath (CONFIG_DIR h) (u "config.json").

Definition get_config (h : host) (disk : filesystem) : json :=
  if exists_ disk (CONFIG_FILE h) then
    match read_text disk (CONFIG_FILE h) with
    | Ok text =>
        match Decoder.loads text with
        | Some v => v
        | None => JObj []
        end
    | Raise _ => JObj []
    end
  else JObj [].

Definition save_config (h : host) (disk : filesystem) (c : config)
  : result filesystem :=
  match mkdir_p h disk (home h) (u ".kiro-proxy") with
  | Raise e => Raise e
  | Ok disk1 => write_text h disk1 (CONFIG_DIR h) (u "config.json") (Encoder.dumps c)
  end.

(** ** Commands *)

(** The lines a command shows that carry information (banners, blank lines
    and usage examples are left out). *)
Inductive message :=
| MsgSearching                        (* Searching for Kiro IDE credentials... *)
| MsgFound (p : pystr)                (* Found: p *)
| MsgIdeNotFound                      (* Kiro IDE credentials not found! *)
| MsgNeedSource                       (* Please provide a credentials file or use --ide mode *)
| MsgChecking                         (* Checking credentials file... *)
| MsgMissingTokens                    (* Invalid credentials file: missing accessToken or refreshToken *)
| MsgValid (p : pystr)                (* Valid credentials file: p *)
| MsgInvalidJSON (p : pystr)          (* Invalid JSON file: p *)
| MsgErrorReading (e : exn)           (* Error reading file: e *)
| MsgGeneratedKey (k : pystr)         (* Generated API Key: k *)
| MsgSaved                            (* Configuration saved to: CONFIG_FILE; Now run: kiro-proxy start *)
| MsgNotConfigured                    (* Not configured! Run 'kiro-proxy install <credentials.json>' first. *)
| MsgCredsNotFound (p : pystr)        (* Credentials file not found: p *)
| MsgReconfigure                      (* Run 'kiro-proxy install <credentials.json>' to reconfigure. *)
| MsgConnectionInfo (port : json) (k : pystr).

(** How a command ends.  [Handoff] is the call
    [uvicorn.run("main:app", host="0.0.0.0", port=port, ...)] with the two
    environment variables [KIRO_CREDS_FILE] and [PROXY_API_KEY] set. *)
Inductive outcome :=
| Returned (disk : filesystem)
| Exited (code : Z) (disk : filesystem)
| Uncaught (e : exn)
| Handoff (kiro_creds_file proxy_api_key : pystr) (port : json).

Record run := { shown : list message; final : outcome }.

(** Python truth value of a decoded JSON value. *)
Definition truthy (h : host) (v : json) : bool :=
  match v with
  | JNull => false
  | JBool b => b
  | JInt z => negb (z =? 0)%Z
  | JFloat lexeme => negb (float_is_zero h lexeme)
  | JStr s => negb (bool_decide (s = []))
  | JArr items => negb (bool_decide (items = []))
  | JObj members => negb (bool_decide (members = []))
  end.

(** [k in v] for a decoded value [v]: key lookup in a dict, membership in a
    list, occurs_in search in a str, [TypeError] on anything else. *)
Definition py_in (k : pystr) (v : json) : result bool :=
  match v with
  | JObj d => Ok (bool_decide (is_Some (dict_get k d)))
  | JArr items =>
      Ok (existsb (fun x => match x with JStr s => pystr_eqb s k | _ => false end) items)
  | JStr s => Ok (contains k s)
  | _ => Raise TypeError
  end.

(** The [try] block of [install] that validates the credentials file:
    [inl] the failure message, [inr tt] when the file is accepted. *)
Definition validate_credentials (disk : filesystem) (creds_path : pystr)
  : message + unit :=
  match read_text disk creds_path with
  | Raise e => inl (MsgErrorReading e)
  | Ok text =>
      match Decoder.loads text with
      | None => inl (MsgInvalidJSON creds_path)
      | Some creds =>
          match py_in (u "accessToken") creds with
          | Raise e => inl (MsgErrorReading e)
          | Ok true => inr tt
          | Ok false =>
              match py_in (u "refreshToken") creds with
              | Raise e => inl (MsgErrorReading e)
              | Ok true => inr tt
              | Ok false => inl MsgMissingTokens
              end
          end
      end
  end.

(** The configuration [install] builds. *)
Definition install_config (creds_path api_key : pystr) : config :=
  [(u "credentials_file", VStr creds_path);
   (u "api_key", VStr api_key);
   (u "port", VInt 8000)].

(** Validation, key generation and saving, once the credentials path is
    chosen; [pre] are the lines shown so far. *)
Definition install_with (h : host) (disk : filesystem) (pre : list message)
    (creds_path : pystr) (api_key : option pystr) : run :=
  match validate_credentials disk creds_path with
  | inl m => {| shown := pre ++ [MsgChecking; m]; final := Exited 1 disk |}
  | inr _ =>
      let generate :=
        match api_key with
        | None => true
        | Some k => bool_decide (k = [])
        end in
      let key := if generate then token_urlsafe (token_bytes h 16)
                 else default [] api_key in
      let lines :=
        pre ++ [MsgChecking; MsgValid creds_path]
            ++ (if generate then [MsgGeneratedKey key] else []) in
      match save_config h disk (install_config creds_path key) with
      | Raise e => {| shown := lines; final := Uncaught e |}
      | Ok disk' => {| shown := lines ++ [MsgSaved]; final := Returned disk' |}
      end
  end.

(** [kiro-proxy install [credentials_file] [--ide] [--api-key KEY]] *)
Definition install (h : host) (disk : filesystem)
    (credentials_file : option pystr) (ide : bool) (api_key : option pystr) : run :=
  if ide then
    match find_kiro_ide_credentials h disk with
    | Raise e => {| shown := [MsgSearching]; final := Uncaught e |}
    | Ok (Some found_path) =>
        install_with h disk [MsgSearching; MsgFound found_path] found_path api_key
    | Ok None => {| shown := [MsgSearching; MsgIdeNotFound]; final := Exited 1 disk |}
    end
  else
    match credentials_file with
    | Some (c :: s) => install_with h disk [] (resolve h (c :: s)) api_key
    | _ => {| shown := [MsgNeedSource]; final := Exited 1 disk |}
    end.

(** [port or config.get('port', 8000)] *)
Definition server_port (port : option Z) (d : dict) : json :=
  match port with
  | Some p => if (p =? 0)%Z then default (JInt 8000) (dict_get (u "port") d) else JInt p
  | None => default (JInt 8000) (dict_get (u "port") d)
  end.

(** [kiro-proxy start [--port PORT]], up to the call into the server. *)
Definition start (h : host) (disk : filesystem) (port : option Z) : run :=
  match get_config h disk with
  | JObj d =>
      if negb (from_option (truthy h) false (dict_get (u "credentials_file") d)) then
        {| shown := [MsgNotConfigured]; final := Exited 1 disk |}
      else
        match dict_get (u "credentials_file") d with
        | Some (JStr s) =>
            let creds_path := path_of h s in
            if negb (exists_ disk creds_path) then
              {| shown := [MsgCredsNotFound creds_path; MsgReconfigure];
                 final := Exited 1 disk |}
            else
              let port' := server_port port d in
              match default (JStr []) (dict_get (u "api_key") d) with
              | JStr api_key =>
                  {| shown := [MsgConnectionInfo port' api_key];
                     final := Handoff creds_path api_key port' |}
              | _ => {| shown := []; final := Uncaught TypeError |}
              end
        | _ => {| shown := []; final := Uncaught TypeError |}
        end
  | _ => {| shown := []; final := Uncaught AttributeError |}
  end.

(** ** Sample host and disks, used to exercise the statements *)

Definition sample_host : host :=
  {| home := u "/home/op";
     resolve := fun s => s;
     path_of := fun s => s;
     float_is_zero := fun _ => false;
     clock := 1700000000%Z;
     urandom := fun i => default Byte.x00 (Byte.of_nat (17 * i + 3)) |}.

(** A JSON text written with apostrophes in place of double quotes. *)
Definition js (s : string) : pystr :=
  List.map (fun c => if c =? 39 then 34 else c) (u s).

Definition file (mtime : Z) (t : pystr) : node :=
  {| st_mtime := mtime; body := Text t |}.

Definition folder (mtime : Z) (names : list pystr) : node :=
  {| st_mtime := mtime; body := Directory names |}.

(** A credentials file outside the cache, nothing configured yet. *)
Definition disk_fresh : filesystem :=
  <[u "/srv/creds.json" := file 10 (js "{'accessToken':'abc'}")]>
  (<[u "/srv/bad.json" := file 11 (js "{'foo':'bar'}")]>
  (<[u "/srv/broken.json" := file 12 (js "{'accessToken': ")]>
  (<[u "/home/op" := folder 1 []]> ∅))).

(** A cache directory with three token files and one unrelated entry. *)
Definition disk_cache : filesystem :=
  <[u "/home/op/.aws/sso/cache" :=
      folder 50 [u "a.json"; u "notes.txt"; u "b.json"; u "c.json"]]>
  (<[u "/home/op/.aws/sso/cache/a.json" := file 20 (js "{'accessToken':'old'}")]>
  (<[u "/home/op/.aws/sso/cache/notes.txt" := file 99 (u "accessToken")]>
  (<[u "/home/op/.aws/sso/cache/b.json" := file 40 (u "refreshToken = not even json")]>
  (<[u "/home/op/.aws/sso/cache/c.json" := file 30 (js "{'accessToken':'mid'}")]> ∅)))).


(** An earlier configuration on port 9000, its credentials file in place. *)
Definition disk_configured : filesystem :=
  <[u "/home/op/.kiro-proxy" := folder 5 [u "config.json"]]>
  (<[u "/home/op/.kiro-proxy/config.json" :=
       file 6 (js "{'credentials_file': '/srv/creds.json', 'api_key': 'old', 'port': 9000}")]>
  disk_fresh).



(** ** [status] *)

(** What [status] reports: the not-configured notice, or the stored
    credentials path with the result of the existence test, and the values
    found under [api_key] and [port] (or their stand-ins), as they are
    handed to the terminal; or the exception that ends the command. *)
Inductive report :=
| NotConfigured
| Configuration (credentials : pystr) (found : bool) (api_key port : json)
| Raised (e : exn).

(** [kiro-proxy status] *)
Definition status (h : host) (disk : filesystem) : report :=
  let config := get_config h disk in
  if negb (truthy h config) then NotConfigured
  else
    match config with
    | JObj d =>
        match default (JStr (u "Not set")) (dict_get (u "credentials_file") d) with
        | JStr creds_file =>
            let creds_exists :=
              if negb (pystr_eqb creds_file (u "Not set"))
              then exists_ disk (path_of h creds_file)
              else false in
            Configuration creds_file creds_exists
              (default (JStr (u "Not set")) (dict_get (u "api_key") d))
              (default (JInt 8000) (dict_get (u "port") d))
        | _ => Raised TypeError
        end
    | _ => Raised AttributeError
    end.

(** ** [init]: the interactive wizard *)

(** What the wizard needs beyond the [host]: Python's [int] on a string
    ([None] for [ValueError]) and [str(Path(s).expanduser())]. *)
Record terminal := {
  to_int : pystr -> option Z;
  expanduser : pystr -> pystr
}.

(** The lines of the wizard that carry information; [Said] wraps the lines
    it shares with [install] and [start]. *)
Inductive wizard_message :=
| Said (m : message)
| WPleaseEnter            (* Please enter 1, 2, or 3 *)
| WKiroCliUnavailable     (* kiro-cli support is not available yet. *)
| WFileNotFound (p : pystr)   (* File not found: p *)
| WValid                  (* Valid credentials file *)
| WInvalidJSON            (* Invalid JSON file *)
| WConfigurationSaved     (* Configuration saved! *)
| WAborted.               (* Aborted! *)

Record wizard_run := { said : list wizard_message; ended : outcome }.

(** The answers are the lines the operator types, in order, without their
    line ends; when they run out the terminal is at end of file and
    [click] aborts the command. *)

Definition is_choice (s : pystr) : bool :=
  pystr_eqb s (u "1") || pystr_eqb s (u "2") || pystr_eqb s (u "3").

(** The loop around [click.prompt("Enter choice", type=str, default="1")]:
    an empty line stands for the default; anything but 1, 2 or 3 is asked
    again.  The lines shown, and the choice with the answers left. *)
Fixpoint ask_choice (answers : list pystr)
  : list wizard_message * option (pystr * list pystr) :=
  match answers with
  | [] => ([], None)
  | a :: rest =>
      let choice := match a with [] => u "1" | _ :: _ => a end in
      if is_choice choice then ([], Some (choice, rest))
      else let (lines, r) := ask_choice rest in (WPleaseEnter :: lines, r)
  end.

(** [click.prompt(text, default=d)]: an empty line stands for the default. *)
Definition prompt_default (d : pystr) (answers : list pystr)
  : option (pystr * list pystr) :=
  match answers with
  | [] => None
  | a :: rest => Some (match a with [] => d | _ :: _ => a end, rest)
  end.

(** [click.prompt(text, type=str)] without default: empty lines are asked
    again. *)
Fixpoint prompt_required (answers : list pystr) : option (pystr * list pystr) :=
  match answers with
  | [] => None
  | [] :: rest => prompt_required rest
  | a :: rest => Some (a, rest)
  end.

(** [str.isspace], the characters [str.strip] removes. *)
Definition is_space (c : N) : bool :=
  ((9 <=? c) && (c <=? 13)) || ((28 <=? c) && (c <=? 32)) || (c =? 133) || (c =? 160)
  || (c =? 5760) || ((8192 <=? c) && (c <=? 8202)) || (c =? 8232) || (c =? 8233)
  || (c =? 8239) || (c =? 8287) || (c =? 12288).

Fixpoint lstrip (s : pystr) : pystr :=
  match s with
  | c :: r => if is_space c then lstrip r else s
  | [] => []
  end.

Definition strip (s : pystr) : pystr := rev (lstrip (rev (lstrip s))).

(** [str.lower] on the letters A to Z.  No other character lowers to a
    letter of [yes] or [no], which is all [confirm] compares with. *)
Definition lower (s : pystr) : pystr :=
  List.map (fun c => if (65 <=? c) && (c <=? 90) then c + 32 else c) s.

(** [click.confirm(text, default=d)]: y or yes, n or no, the empty line for
    the default; anything else is asked again. *)
Fixpoint confirm (d : bool) (answers : list pystr) : option (bool * list pystr) :=
  match answers with
  | [] => None
  | a :: rest =>
      let value := strip (lower a) in
      if pystr_eqb value (u "y") || pystr_eqb value (u "yes") then Some (true, rest)
      else if pystr_eqb value (u "n") || pystr_eqb value (u "no") then Some (false, rest)
      else if pystr_eqb value [] then Some (d, rest)
      else confirm d rest
  end.

(** End of file at a prompt: [click.Abort], which ends the command with
    status 1. *)
Definition aborted (lines : list wizard_message) (disk : filesystem) : wizard_run :=
  {| said := lines ++ [WAborted]; ended := Exited 1 disk |}.

(** The wizard once the credentials path is settled: the port prompt, the
    generated key, the save, and the offer to start. *)
Definition init_finish (t : terminal) (h : host) (disk : filesystem)
    (lines : list wizard_message) (creds_path : pystr) (answers : list pystr)
  : wizard_run :=
  match prompt_default (u "8000") answers with
  | None => aborted lines disk
  | Some (port_input, rest) =>
      let port := default 8000%Z (to_int t port_input) in
      let api_key := token_urlsafe (token_bytes h 16) in
      let lines1 := lines ++ [Said (MsgGeneratedKey api_key)] in
      match save_config h disk
              [(u "credentials_file", VStr creds_path);
               (u "api_key", VStr api_key);
               (u "port", VInt port)] with
      | Raise e => {| said := lines1; ended := Uncaught e |}
      | Ok disk' =>
          let lines2 := lines1 ++ [WConfigurationSaved] in
          match confirm true rest with
          | None => aborted lines2 disk'
          | Some (false, _) => {| said := lines2; ended := Returned disk' |}
          | Some (true, _) =>
              let r := start h disk' (Some port) in
              {| said := lines2 ++ List.map Said (shown r); ended := final r |}
          end
      end
  end.

(** The manual branch: the path prompt, the existence test and the
    validation, in which only [JSONDecodeError] is caught. *)
Definition init_manual (t : terminal) (h : host) (disk : filesystem)
    (lines : list wizard_message) (answers : list pystr) : wizard_run :=
  match prompt_required answers with
  | None => aborted lines disk
  | Some (typed, rest) =>
      let file_path := resolve h (expanduser t typed) in
      if negb (exists_ disk file_path) then
        {| said := lines ++ [WFileNotFound file_path]; ended := Exited 1 disk |}
      else
        match read_text disk file_path with
        | Raise e => {| said := lines; ended := Uncaught e |}
        | Ok text =>
            match Decoder.loads text with
            | None => {| said := lines ++ [WInvalidJSON]; ended := Exited 1 disk |}
            | Some creds =>
                match py_in (u "accessToken") creds with
                | Raise e => {| said := lines; ended := Uncaught e |}
                | Ok true => init_finish t h disk (lines ++ [WValid]) file_path rest
                | Ok false =>
                    match py_in (u "refreshToken") creds with
                    | Raise e => {| said := lines; ended := Uncaught e |}
                    | Ok true => init_finish t h disk (lines ++ [WValid]) file_path rest
                    | Ok false =>
                        {| said := lines ++ [Said MsgMissingTokens];
                           ended := Exited 1 disk |}
                    end
                end
            end
        end
  end.

(** [kiro-proxy init] *)
Definition init (t : terminal) (h : host) (disk : filesystem) (answers : list pystr)
  : wizard_run :=
  match ask_choice answers with
  | (lines, None) => aborted lines disk
  | (lines, Some (choice, rest)) =>
      if pystr_eqb choice (u "1") then
        match find_kiro_ide_credentials h disk with
        | Raise e => {| said := lines ++ [Said MsgSearching]; ended := Uncaught e |}
        | Ok (Some found_path) =>
            init_finish t h disk
              (lines ++ [Said MsgSearching; Said (MsgFound found_path)]) found_path rest
        | Ok None =>
            {| said := lines ++ [Said MsgSearching; Said MsgIdeNotFound];
               ended := Exited 1 disk |}
        end
      else if pystr_eqb choice (u "2") then
        {| said := lines ++ [WKiroCliUnavailable]; ended := Exited 1 disk |}
      else init_manual t h disk lines rest
  end.

(** A terminal whose [int] reads plain decimal digits and whose home
    expansion leaves absolute paths alone. *)
Definition sample_terminal : terminal :=
  {| to_int := fun s =>
       match s with
       | [] => None
       | _ :: _ =>
           if forallb Decoder.is_digit s
           then Some (Z.of_uint (Decoder.uint_of_digits s))
           else None
       end;
     expanduser := fun s => s |}.

(** ** The same machine at another moment *)

(** The clock reads [c] and [os.urandom] delivers [r]; the home directory
    and the path operations are those of [h]. *)
Definition later (h : host) (c : Z) (r : nat -> Byte.byte) : host :=
  {| home := home h;
     resolve := resolve h;
     path_of := path_of h;
     float_is_zero := float_is_zero h;
     clock := c;
     urandom := r |}.

(** ** More sample disks *)

(** The canonical token file next to a newer token file and an entry that
    is listed but cannot be examined. *)
Definition disk_canonical : filesystem :=
  <[u "/home/op/.aws/sso/cache" :=
      folder 50 [u "kiro-auth-token.json"; u "ghost.json"; u "new.json"]]>
  (<[u "/home/op/.aws/sso/cache/kiro-auth-token.json" :=
       file 10 (js "{'refreshToken':'r'}")]>
  (<[u "/home/op/.aws/sso/cache/new.json" := file 99 (js "{'accessToken':'n'}")]> ∅)).

(** A cache in which one listed entry cannot be examined. *)
Definition disk_dangling : filesystem :=
  <[u "/home/op/.aws/sso/cache" := folder 50 [u "a.json"; u "ghost.json"]]>
  (<[u "/home/op/.aws/sso/cache/a.json" := file 20 (js "{'accessToken':'a'}")]> ∅).

(** Token files among files without marker, a directory and a file that is
    not text, all newer. *)
Definition disk_mixed : filesystem :=
  <[u "/home/op/.aws/sso/cache" :=
      folder 50 [u "old.json"; u "new.json"; u "mid.json"; u "dir.json"; u "bin.json"]]>
  (<[u "/home/op/.aws/sso/cache/old.json" := file 10 (js "{'accessToken':'o'}")]>
  (<[u "/home/op/.aws/sso/cache/new.json" := file 90 (js "{'token':'n'}")]>
  (<[u "/home/op/.aws/sso/cache/mid.json" := file 50 (js "{'refreshToken':'m'}")]>
  (<[u "/home/op/.aws/sso/cache/dir.json" := folder 95 []]>
  (<[u "/home/op/.aws/sso/cache/bin.json" := {| st_mtime := 99; body := Undecodable |}]>
   ∅))))).

(** Two token files modified at the same time. *)
Definition disk_ties : filesystem :=
  <[u "/home/op/.aws/sso/cache" := folder 50 [u "x.json"; u "y.json"]]>
  (<[u "/home/op/.aws/sso/cache/x.json" := file 7 (js "{'accessToken':'x'}")]>
  (<[u "/home/op/.aws/sso/cache/y.json" := file 7 (js "{'accessToken':'y'}")]> ∅)).

(** Files that hold valid JSON other than an object. *)
Definition disk_odd : filesystem :=
  <[u "/srv/list.json" := file 3 (js "['accessToken']")]>
  (<[u "/srv/number.json" := file 4 (u "5")]>
  (<[u "/srv/text.json" := file 5 (js "'my refreshToken'")]> disk_fresh)).

(** Configuration files that hold an empty array, an array, and an object
    whose credentials entry is a number. *)
Definition disk_config_empty_array : filesystem :=
  <[u "/home/op/.kiro-proxy/config.json" := file 7 (u "[]")]> disk_configured.

Definition disk_config_array : filesystem :=
  <[u "/home/op/.kiro-proxy/config.json" := file 7 (u "[1]")]> disk_configured.

Definition disk_config_number : filesystem :=
  <[u "/home/op/.kiro-proxy/config.json" := file 7 (js "{'credentials_file': 5}")]>
  disk_configured.


(** * Properties *)

Import Decoder Encoder.

(** ** Vocabulary of the statements *)

(** [needle] occurs in [hay] as a contiguous run. *)
Definition occurs_in (needle hay : pystr) : Prop :=
  exists pre post, hay = pre ++ needle ++ post.


(** A text before which a number ends: empty, or starting with a character
    that can continue neither the digits nor a fraction nor an exponent. *)
Definition ends_number (rest : pystr) : Prop :=
  match rest with
  | [] => True
  | c :: _ => is_digit c = false /\ c <> 46 /\ c <> 101 /\ c <> 69
  end.

(** What follows a value in the text [dumps] writes: a comma or a line feed. *)
Definition after_value (rest : pystr) : Prop :=
  exists r, rest = 44 :: r \/ rest = 10 :: r.

(** The text of the items after the opening quote of the first key. *)
Fixpoint items_tail (kv : pystr * pyval) (c : config) : pystr :=
  flat_map escape_char (fst kv) ++ 34 :: 58 :: 32 :: encode_value (snd kv) ++
  match c with
  | [] => []
  | kv' :: c' => 44 :: 10 :: 32 :: 32 :: 34 :: items_tail kv' c'
  end.

(** Storing the items one after the other, as [JSONObject] does. *)
Definition store_items (c : config) (acc : dict) : dict :=
  fold_left (fun d kv => dict_set (fst kv) (json_of_pyval (snd kv)) d) c acc.

(** The outcome of a scan is sound when it did not run out of fuel and what
    it leaves is shorter than what it was given. *)
Definition progress (x : scan json) (s : pystr) : Prop :=
  x <> Exhausted /\ forall v r, x = Scanned v r -> (length r < length s)%nat.

(** The configuration value of the data model: two strings and an integer
    under the keys [credentials_file], [api_key] and [port]. *)
Definition gateway_config (credentials_file api_key : pystr) (port : Z) : config :=
  [(u "credentials_file", VStr credentials_file);
   (u "api_key", VStr api_key);
   (u "port", VInt port)].

(** The characters of the URL-safe alphabet. *)
Definition url_safe (c : N) : Prop :=
  65 <= c <= 90 \/ 97 <= c <= 122 \/ 48 <= c <= 57 \/ c = 45 \/ c = 95.

(** A node that is a directory. *)
Definition is_directory (n : option node) : Prop :=
  exists m entries, n = Some {| st_mtime := m; body := Directory entries |}.

(** The credentials path [install] settles on: the file the locator found
    under [--ide], the resolved argument otherwise. *)
Definition chooses (h : host) (disk : filesystem) (credentials_file : option pystr)
    (ide : bool) (creds_path : pystr) : Prop :=
  (ide = true /\ find_kiro_ide_credentials h disk = Ok (Some creds_path)) \/
  (ide = false /\
   exists s, credentials_file = Some s /\ s <> [] /\ creds_path = resolve h s).

(** The key [install] stores: the operator's when one was given and is not
    the empty string, a fresh token otherwise. *)
Definition stored_key (h : host) (api_key : option pystr) : pystr :=
  match api_key with
  | Some (c :: k) => c :: k
  | _ => token_urlsafe (token_bytes h 16)
  end.

(** The canonical token file of the IDE. *)
Definition canonical (h : host) : pystr :=
  joinpath (cache_dir h) (u "kiro-auth-token.json").

(** Keys in descending order: no element is followed by a larger key. *)
Fixpoint descending (l : list (Z * pystr)) : Prop :=
  match l with
  | [] => True
  | x :: t => Forall (fun y => (fst y <= fst x)%Z) t /\ descending t
  end.

(** Two disks that hold the same at every path that starts with [prefix]. *)
Definition agree_under (prefix : pystr) (disk disk' : filesystem) : Prop :=
  forall p, startswith prefix p = true -> disk' !! p = disk !! p.

(** A decoded value that is neither an object, an array nor a string. *)
Definition is_scalar (v : json) : bool :=
  match v with
  | JObj _ | JArr _ | JStr _ => false
  | _ => true
  end.

(** A decoded value that is an object. *)
Definition is_object (v : json) : bool :=
  match v with
  | JObj _ => true
  | _ => false
  end.

(** A decoded value that is a string. *)
Definition is_string (v : json) : bool :=
  match v with
  | JStr _ => true
  | _ => false
  end.

(** The configuration the wizard builds for the credentials path [creds]
    and the answer [a] to the port prompt. *)
Definition wizard_config (t : terminal) (h : host) (creds a : pystr) : config :=
  gateway_config creds (token_urlsafe (token_bytes h 16)) (default 8000%Z (to_int t a)).

(** ** Strings *)


Lemma startswith_spec (p s : pystr) :
  startswith p s = true <-> exists t, s = p ++ t.
Proof.
  revert s; induction p as [|a p IH]; intros s; simpl.
  - split; [intros _; exists s; reflexivity | reflexivity].
  - destruct s as [|b s].
    + split; [discriminate | intros [t Ht]; discriminate].
    + rewrite andb_true_iff, N.eqb_eq, IH. split.
      * intros [-> [t ->]]. exists t. reflexivity.
      * intros [t Ht]. injection Ht as -> ->. split; [reflexivity | exists t; reflexivity].
Qed.

Lemma contains_spec (needle hay : pystr) :
  contains needle hay = true <-> occurs_in needle hay.
Proof.
  unfold occurs_in. induction hay as [|c hay IH]; simpl.
  - rewrite orb_false_r, startswith_spec. split.
    + intros [t Ht]. exists [], t. exact Ht.
    + intros [pre [post H]]. destruct pre; [exists post; exact H | discriminate].
  - rewrite orb_true_iff, startswith_spec, IH. split.
    + intros [[t Ht] | [pre [post H]]].
      * exists [], t. exact Ht.
      * exists (c :: pre), post. simpl. rewrite H. reflexivity.
    + intros [pre [post H]]. destruct pre as [|c' pre].
      * left. exists post. exact H.
      * right. injection H as _ H. exists pre, post. exact H.
Qed.

Lemma marker_check_spec (text : pystr) :
  marker_check text = true <->
  occurs_in (u "accessToken") text \/ occurs_in (u "refreshToken") text.
Proof.
  unfold marker_check. rewrite orb_true_iff, !contains_spec. reflexivity.
Qed.


(** ** Decoding what the encoder wrote *)


Lemma scanstring_plain (c : N) (r : pystr) :
  (c =? 34) = false -> (c =? 92) = false -> (c <? 32) = false ->
  scanstring (c :: r) = cons_char c (scanstring r).
Proof. intros H1 H2 H3. simpl. rewrite H1, H2, H3. reflexivity. Qed.

Lemma hex4_control (c : N) :
  c < 32 -> hex4 48 48 (hexdigit (c / 16)) (hexdigit (c mod 16)) = Some c.
Proof.
  intros H. rewrite <- (N2Nat.id c).
  assert (Hn : (N.to_nat c < 32)%nat) by lia.
  generalize dependent (N.to_nat c). intros n Hn. clear H.
  do 32 (destruct n as [|n]; [vm_compute; reflexivity|]). lia.
Qed.

Lemma scanstring_control (c : N) (r : pystr) :
  c < 32 ->
  scanstring (92 :: 117 :: 48 :: 48 :: hexdigit (c / 16) :: hexdigit (c mod 16) :: r)
  = cons_char c (scanstring r).
Proof.
  intros H. cbn -[hex4 N.div N.modulo].
  rewrite (hex4_control c H).
  assert (Hs : is_high_surrogate c = false).
  { unfold is_high_surrogate. apply andb_false_iff. left. apply N.leb_gt. lia. }
  rewrite Hs. simpl.
  destruct r as [|? [|? [|? [|? [|? [|? ?]]]]]]; reflexivity.
Qed.

(** [scanstring] undoes [encode_basestring], whatever the string. *)
Lemma scanstring_escape (s rest : pystr) :
  scanstring (flat_map escape_char s ++ 34 :: rest) = Some (s, rest).
Proof.
  induction s as [|c s IH]; [reflexivity|].
  cbn [flat_map]. rewrite <- app_assoc.
  set (r := flat_map escape_char s ++ 34 :: rest) in *.
  unfold escape_char.
  destruct (c =? 34) eqn:E1; [apply N.eqb_eq in E1; subst c; cbn; rewrite IH; reflexivity|].
  destruct (c =? 92) eqn:E2; [apply N.eqb_eq in E2; subst c; cbn; rewrite IH; reflexivity|].
  destruct (c =? 10) eqn:E3; [apply N.eqb_eq in E3; subst c; cbn; rewrite IH; reflexivity|].
  destruct (c =? 13) eqn:E4; [apply N.eqb_eq in E4; subst c; cbn; rewrite IH; reflexivity|].
  destruct (c =? 9) eqn:E5; [apply N.eqb_eq in E5; subst c; cbn; rewrite IH; reflexivity|].
  destruct (c =? 8) eqn:E6; [apply N.eqb_eq in E6; subst c; cbn; rewrite IH; reflexivity|].
  destruct (c =? 12) eqn:E7; [apply N.eqb_eq in E7; subst c; cbn; rewrite IH; reflexivity|].
  destruct (c <? 32) eqn:E8.
  - apply N.ltb_lt in E8. cbn [app]. rewrite (scanstring_control c r E8), IH. reflexivity.
  - cbn [app]. rewrite (scanstring_plain c r E1 E2 E8), IH. reflexivity.
Qed.

(** Digits. *)


Lemma span_digits_uint (d : Decimal.uint) (rest : pystr) :
  ends_number rest ->
  span_digits (digits_of_uint d ++ rest) = (digits_of_uint d, rest).
Proof.
  intros Hr. induction d; cbn [digits_of_uint app];
    try (cbn [span_digits]; change (is_digit _) with true; cbv iota; rewrite IHd; reflexivity).
  destruct rest as [|c r]; [reflexivity|]. simpl in Hr. destruct Hr as [Hd _].
  simpl. rewrite Hd. reflexivity.
Qed.

Lemma uint_of_digits_of_uint (d : Decimal.uint) :
  uint_of_digits (digits_of_uint d) = d.
Proof.
  unfold uint_of_digits.
  induction d; cbn [digits_of_uint foldr]; try rewrite IHd; reflexivity.
Qed.

Lemma scan_frac_none (rest : pystr) : ends_number rest -> scan_frac rest = ([], rest).
Proof.
  destruct rest as [|c r]; [reflexivity|]. simpl. intros (_ & H & _ & _).
  apply N.eqb_neq in H. rewrite H. reflexivity.
Qed.

Lemma scan_exp_none (rest : pystr) : ends_number rest -> scan_exp rest = ([], rest).
Proof.
  destruct rest as [|c r]; [reflexivity|]. simpl. intros (_ & _ & H1 & H2).
  apply N.eqb_neq in H1, H2. rewrite H1, H2. reflexivity.
Qed.

Lemma to_uint_head (p : positive) :
  exists c ds,
    digits_of_uint (Pos.to_uint p) = c :: ds /\ (c =? 48) = false /\ is_digit c = true /\
    exists k, Pos.to_uint p = uint_of_digits (c :: ds) /\ ds = digits_of_uint k.
Proof.
  pose proof (DecimalPos.Unsigned.to_of (Pos.to_uint p)) as H.
  rewrite DecimalPos.Unsigned.of_to in H. simpl in H.
  pose proof (DecimalPos.Unsigned.to_uint_nonnil p) as Hnil.
  pose proof (DecimalPos.Unsigned.to_uint_nonzero p) as Hz.
  destruct (Pos.to_uint p) as [|k|k|k|k|k|k|k|k|k|k] eqn:E; [congruence| |..];
    try (eexists _, _; split; [reflexivity|]; split; [reflexivity|]; split; [reflexivity|];
         exists k; split; [|reflexivity];
         change (uint_of_digits (?c :: ?t)) with (digit_of c (uint_of_digits t));
         rewrite uint_of_digits_of_uint; reflexivity).
  exfalso. unfold Decimal.unorm in H. rewrite DecimalFacts.nzhead_D0 in H.
  destruct (Decimal.nzhead k) eqn:Ek; try discriminate.
  - exact (Hz H).
  - apply (DecimalFacts.nzhead_nonzero k k). congruence.
Qed.

Lemma scan_integer_pos (p : positive) (rest : pystr) :
  ends_number rest ->
  exists ds, scan_integer (digits_of_uint (Pos.to_uint p) ++ rest) = Some (false, ds, rest) /\
             uint_of_digits ds = Pos.to_uint p /\
             scan_integer (45 :: digits_of_uint (Pos.to_uint p) ++ rest) = Some (true, ds, rest).
Proof.
  intros Hr. destruct (to_uint_head p) as (c & ds & E & H48 & Hd & k & Hk & ->).
  rewrite E. exists (c :: digits_of_uint k). cbn [app].
  assert (H45 : (c =? 45) = false).
  { unfold is_digit in Hd. apply andb_true_iff in Hd as [Hd _].
    apply N.leb_le in Hd. apply N.eqb_neq. lia. }
  split; [|split; [symmetry; exact Hk|]].
  - unfold scan_integer. rewrite H45, H48, Hd, (span_digits_uint k rest Hr). reflexivity.
  - unfold scan_integer. change (45 =? 45) with true. cbv iota.
    rewrite H48, Hd, (span_digits_uint k rest Hr). reflexivity.
Qed.

(** [int(repr(z)) == z]: scanning the decimal text of an integer gives the
    integer back, provided the text after it cannot extend the number. *)
Lemma scan_number_int_repr (z : Z) (rest : pystr) :
  ends_number rest ->
  scan_number (int_repr z ++ rest) = Some (JInt z, rest).
Proof.
  intros Hr. unfold int_repr, scan_number.
  destruct z as [|p|p].
  - cbn. rewrite (scan_frac_none rest Hr), (scan_exp_none rest Hr). reflexivity.
  - change (Z.to_int (Z.pos p)) with (Decimal.Pos (Pos.to_uint p)). cbv iota.
    destruct (scan_integer_pos p rest Hr) as (ds & -> & Hds & _).
    rewrite (scan_frac_none rest Hr), (scan_exp_none rest Hr).
    unfold int_of_lexeme. rewrite Hds.
    change (Decimal.Pos (Pos.to_uint p)) with (Z.to_int (Z.pos p)).
    rewrite DecimalZ.of_to. reflexivity.
  - change (Z.to_int (Z.neg p)) with (Decimal.Neg (Pos.to_uint p)). cbv iota.
    cbn [app].
    destruct (scan_integer_pos p rest Hr) as (ds & _ & Hds & ->).
    rewrite (scan_frac_none rest Hr), (scan_exp_none rest Hr).
    unfold int_of_lexeme. rewrite Hds.
    change (Decimal.Neg (Pos.to_uint p)) with (Z.to_int (Z.neg p)).
    rewrite DecimalZ.of_to. reflexivity.
Qed.


Lemma after_value_ends_number (rest : pystr) : after_value rest -> ends_number rest.
Proof. intros [r [-> | ->]]; simpl; repeat split; discriminate. Qed.

Lemma int_repr_head (z : Z) :
  exists c ds, int_repr z = c :: ds /\ (is_digit c = true \/ c = 45).
Proof.
  unfold int_repr. destruct z as [|p|p].
  - exists 48, []. split; [reflexivity | left; reflexivity].
  - change (Z.to_int (Z.pos p)) with (Decimal.Pos (Pos.to_uint p)). cbv iota.
    destruct (to_uint_head p) as (c & ds & E & _ & Hd & _).
    exists c, ds. split; [exact E | left; exact Hd].
  - change (Z.to_int (Z.neg p)) with (Decimal.Neg (Pos.to_uint p)). cbv iota.
    eexists _, _. split; [reflexivity | right; reflexivity].
Qed.

Lemma is_digit_range (c : N) : is_digit c = true -> 48 <= c <= 57.
Proof.
  unfold is_digit. rewrite andb_true_iff, !N.leb_le. tauto.
Qed.

(** [scan_once] reads back one encoded value. *)
Lemma scan_once_encode_value (v : pyval) (fuel : nat) (rest : pystr) :
  after_value rest ->
  skip_ws (encode_value v ++ rest) = encode_value v ++ rest /\
  scan_once (S fuel) (encode_value v ++ rest) = Scanned (json_of_pyval v) rest.
Proof.
  intros Hr. destruct v as [s|z].
  - unfold encode_value, encode_basestring. cbn [app].
    rewrite <- app_assoc. cbn [app]. split; [reflexivity|].
    cbn [scan_once]. change (34 =? 34) with true. cbv iota.
    rewrite scanstring_escape. reflexivity.
  - unfold encode_value.
    pose proof (scan_number_int_repr z rest (after_value_ends_number rest Hr)) as Hn.
    destruct (int_repr_head z) as (c & ds & E & Hc).
    rewrite E in *. cbn [app] in *.
    assert (Hrange : 45 <= c <= 57).
    { destruct Hc as [Hc | ->]; [apply is_digit_range in Hc|]; lia. }
    assert (H9 : (c =? 9) = false) by (apply N.eqb_neq; lia).
    assert (H10 : (c =? 10) = false) by (apply N.eqb_neq; lia).
    assert (H13 : (c =? 13) = false) by (apply N.eqb_neq; lia).
    assert (H32 : (c =? 32) = false) by (apply N.eqb_neq; lia).
    assert (H34 : (c =? 34) = false) by (apply N.eqb_neq; lia).
    assert (H91 : (c =? 91) = false) by (apply N.eqb_neq; lia).
    assert (H123 : (c =? 123) = false) by (apply N.eqb_neq; lia).
    assert (H110 : (c =? 110) = false) by (apply N.eqb_neq; lia).
    assert (H116 : (c =? 116) = false) by (apply N.eqb_neq; lia).
    assert (H102 : (c =? 102) = false) by (apply N.eqb_neq; lia).
    split.
    + cbn [skip_ws]. unfold is_ws. rewrite H9, H10, H13, H32. reflexivity.
    + cbn [scan_once]. rewrite H34, H123, H91. unfold scan_atom.
      change (startswith (u "null") (c :: ds ++ rest))
        with ((110 =? c) && startswith (u "ull") (ds ++ rest)).
      change (startswith (u "true") (c :: ds ++ rest))
        with ((116 =? c) && startswith (u "rue") (ds ++ rest)).
      change (startswith (u "false") (c :: ds ++ rest))
        with ((102 =? c) && startswith (u "alse") (ds ++ rest)).
      rewrite (N.eqb_sym 110), (N.eqb_sym 116), (N.eqb_sym 102), H110, H116, H102.
      cbn [andb]. rewrite Hn. reflexivity.
Qed.


Lemma encode_items_tail (kv : pystr * pyval) (c : config) :
  encode_items (kv :: c) = 34 :: items_tail kv c.
Proof.
  revert kv; induction c as [|kv' c IH]; intros kv.
  - cbn [encode_items items_tail]. unfold encode_item, encode_basestring.
    cbn [app]. rewrite <- !app_assoc. cbn [app]. rewrite app_nil_r. reflexivity.
  - change (encode_items (kv :: kv' :: c))
      with (encode_item kv ++ [44; 10; 32; 32] ++ encode_items (kv' :: c)).
    rewrite IH. cbn [items_tail]. unfold encode_item, encode_basestring.
    cbn [app]. rewrite <- !app_assoc. cbn [app]. reflexivity.
Qed.


Lemma obj_members_more (f : nat) (acc : dict) (s key r r1 r2 r3 r4 : pystr) (v : json) :
  scanstring s = Some (key, r) -> skip_ws r = 58 :: r1 ->
  scan_once f (skip_ws r1) = Scanned v r2 ->
  skip_ws r2 = 44 :: r3 -> skip_ws r3 = 34 :: r4 ->
  obj_members (S f) acc s = obj_members f (dict_set key v acc) r4.
Proof.
  intros H1 H2 H3 H4 H5. cbn [obj_members]. rewrite H1, H2.
  change (58 =? 58) with true. cbv beta match. rewrite H3, H4.
  change (44 =? 125) with false. change (44 =? 44) with true. cbv beta match.
  rewrite H5. reflexivity.
Qed.

Lemma obj_members_last (f : nat) (acc : dict) (s key r r1 r2 r3 : pystr) (v : json) :
  scanstring s = Some (key, r) -> skip_ws r = 58 :: r1 ->
  scan_once f (skip_ws r1) = Scanned v r2 ->
  skip_ws r2 = 125 :: r3 ->
  obj_members (S f) acc s = Scanned (JObj (dict_set key v acc)) r3.
Proof.
  intros H1 H2 H3 H4. cbn [obj_members]. rewrite H1, H2.
  change (58 =? 58) with true. cbv beta match. rewrite H3, H4. reflexivity.
Qed.

Lemma obj_members_items (c : config) :
  forall (kv : pystr * pyval) (acc : dict) (fuel : nat) (rest : pystr),
    (length (kv :: c) < fuel)%nat ->
    obj_members fuel acc (items_tail kv c ++ 10 :: 125 :: rest)
    = Scanned (JObj (store_items (kv :: c) acc)) rest.
Proof.
  induction c as [|kv' c IH]; intros [k v] acc fuel rest Hfuel;
    (destruct fuel as [|[|f]]; [simpl in Hfuel; lia | simpl in Hfuel; lia |]).
  - cbn [items_tail fst snd]. rewrite <- !app_assoc. cbn [app].
    rewrite <- app_assoc. cbn [app].
    destruct (scan_once_encode_value v f (10 :: 125 :: rest)) as [Hws Hv];
      [exists (125 :: rest); right; reflexivity|].
    apply (obj_members_last (S f) acc _ k
             (58 :: 32 :: encode_value v ++ 10 :: 125 :: rest)
             (32 :: encode_value v ++ 10 :: 125 :: rest)
             (10 :: 125 :: rest) rest (json_of_pyval v)).
    + apply scanstring_escape.
    + reflexivity.
    + change (skip_ws (32 :: ?r)) with (skip_ws r). rewrite Hws. exact Hv.
    + reflexivity.
  - cbn [items_tail fst snd]. rewrite <- !app_assoc. cbn [app].
    rewrite <- !app_assoc. cbn [app].
    set (next := items_tail kv' c ++ 10 :: 125 :: rest).
    destruct (scan_once_encode_value v f (44 :: 10 :: 32 :: 32 :: 34 :: next)) as [Hws Hv];
      [eexists; left; reflexivity|].
    rewrite (obj_members_more (S f) acc _ k
               (58 :: 32 :: encode_value v ++ 44 :: 10 :: 32 :: 32 :: 34 :: next)
               (32 :: encode_value v ++ 44 :: 10 :: 32 :: 32 :: 34 :: next)
               (44 :: 10 :: 32 :: 32 :: 34 :: next)
               (10 :: 32 :: 32 :: 34 :: next) next (json_of_pyval v)).
    + unfold next. rewrite (IH kv' _ (S f) rest) by (simpl in *; lia). reflexivity.
    + apply scanstring_escape.
    + reflexivity.
    + change (skip_ws (32 :: ?r)) with (skip_ws r). rewrite Hws. exact Hv.
    + reflexivity.
    + reflexivity.
Qed.

Lemma dumps_length (c : config) : (length c < 2 * length (dumps c))%nat.
Proof.
  destruct c as [|kv c]; [simpl; lia|].
  unfold dumps. rewrite encode_items_tail. cbn [app length].
  assert (H : (length c <= length (items_tail kv c))%nat).
  { revert kv. induction c as [|kv' c IH]; intros kv; [simpl; lia|].
    cbn [items_tail]. rewrite !length_app. cbn [length].
    rewrite length_app. cbn [length]. specialize (IH kv'). lia. }
  rewrite length_app. lia.
Qed.

(** [json.loads(json.dumps(c, indent=2, ensure_ascii=False))] gives the
    dictionary back, item by item. *)
Lemma loads_dumps (c : config) :
  loads (dumps c) = Some (JObj (store_items c [])).
Proof.
  destruct c as [|kv c]; [reflexivity|].
  unfold loads. pose proof (dumps_length (kv :: c)) as Hlen.
  unfold dumps in *. rewrite encode_items_tail in *.
  cbn [app] in *.
  change (startswith [65279] (123 :: ?r)) with false. cbv iota.
  change (skip_ws (123 :: ?r)) with (123 :: r).
  cbn [scan_once]. change (123 =? 34) with false. change (123 =? 123) with true.
  cbv iota.
  change (skip_ws (10 :: 32 :: 32 :: 34 :: ?r)) with (34 :: r). cbv iota.
  change (34 =? 125) with false. change (34 =? 34) with true. cbv iota.
  rewrite (obj_members_items c kv [] _ []) by exact Hlen.
  reflexivity.
Qed.

(** ** The decoder never runs out of fuel *)

Lemma skip_ws_length (s : pystr) : (length (skip_ws s) <= length s)%nat.
Proof.
  induction s as [|c s IH]; simpl; [lia|]. destruct (is_ws c); simpl; lia.
Qed.

Lemma cons_char_length (c : N) (x : option (pystr * pystr)) (t r : pystr) (n : nat) :
  (forall t' r', x = Some (t', r') -> (length r' < n)%nat) ->
  cons_char c x = Some (t, r) -> (length r < n)%nat.
Proof.
  destruct x as [[t' r']|]; simpl; [|discriminate].
  intros H [= _ <-]. apply (H t' r' eq_refl).
Qed.

Lemma scanstring_length (s t r : pystr) :
  scanstring s = Some (t, r) -> (length r < length s)%nat.
Proof.
  remember (length s) as n eqn:Hn. revert s t r Hn.
  induction n as [n IH] using lt_wf_ind. intros s t r -> H.
  assert (Hrec : forall c s' t' r', (length s' < length s)%nat ->
            cons_char c (scanstring s') = Some (t', r') -> (length r' < length s)%nat).
  { intros c s' t' r' Hlt. apply cons_char_length. intros t0 r0 E.
    specialize (IH _ Hlt s' t0 r0 eq_refl E). lia. }
  destruct s as [|c s]; [discriminate|]. cbn [scanstring] in H.
  destruct (c =? 34). { injection H as _ <-. simpl. lia. }
  destruct (c =? 92).
  - destruct s as [|e r1]; [discriminate|].
    destruct (e =? 117).
    + destruct r1 as [|h1 [|h2 [|h3 [|h4 r2]]]]; try discriminate.
      destruct (hex4 h1 h2 h3 h4) as [uni|]; [|discriminate].
      destruct r2 as [|b [|v [|l1 [|l2 [|l3 [|l4 r3]]]]]];
        try (apply Hrec in H; [exact H | simpl; lia]).
      destruct (is_high_surrogate uni && (b =? 92) && (v =? 117)).
      * destruct (hex4 l1 l2 l3 l4) as [uni2|]; [|discriminate].
        destruct (is_low_surrogate uni2); apply Hrec in H; solve [exact H | simpl; lia].
      * apply Hrec in H; [exact H | simpl; lia].
    + destruct (backslash e); [|discriminate].
      apply Hrec in H; [exact H | simpl; lia].
  - destruct (c <? 32); [discriminate|].
    apply Hrec in H; [exact H | simpl; lia].
Qed.

Lemma span_digits_length (s ds r : pystr) :
  span_digits s = (ds, r) -> (length r <= length s)%nat.
Proof.
  revert ds r; induction s as [|c s IH]; intros ds r; simpl.
  - intros [= _ <-]. simpl. lia.
  - destruct (is_digit c).
    + destruct (span_digits s) as [ds' r'] eqn:E. intros [= _ <-].
      specialize (IH _ _ eq_refl). lia.
    + intros [= _ <-]. simpl. lia.
Qed.

Lemma scan_integer_length (s ds r : pystr) (neg : bool) :
  scan_integer s = Some (neg, ds, r) -> (length r < length s)%nat.
Proof.
  unfold scan_integer.
  assert (H : forall s' : pystr,
             match s' with
             | [] => None
             | c :: r' =>
                 if c =? 48 then Some (neg, [48], r')
                 else if is_digit c
                      then let (ds0, rest) := span_digits r' in Some (neg, c :: ds0, rest)
                      else None
             end = Some (neg, ds, r) -> (length r < length s')%nat).
  { intros [|c r']; [discriminate|].
    destruct (c =? 48); [intros [= _ <-]; simpl; lia|].
    destruct (is_digit c); [|discriminate].
    destruct (span_digits r') as [ds0 rest] eqn:E. intros [= _ <-].
    apply span_digits_length in E. simpl. lia. }
  destruct s as [|c s]; [discriminate|].
  destruct (c =? 45).
  - intros E. destruct s as [|c' r']; [discriminate|].
    destruct (c' =? 48); [injection E as _ _ <-; simpl; lia|].
    destruct (is_digit c'); [|discriminate].
    destruct (span_digits r') as [ds0 rest] eqn:E'. injection E as _ _ <-.
    apply span_digits_length in E'. simpl. lia.
  - intros E. destruct (c =? 48); [injection E as _ _ <-; simpl; lia|].
    destruct (is_digit c); [|discriminate].
    destruct (span_digits s) as [ds0 rest] eqn:E'. injection E as _ _ <-.
    apply span_digits_length in E'. simpl. lia.
Qed.

Lemma scan_frac_length (s f r : pystr) :
  scan_frac s = (f, r) -> (length r <= length s)%nat.
Proof.
  unfold scan_frac. destruct s as [|c s]; [intros [= _ <-]; lia|].
  destruct (c =? 46); [|intros [= _ <-]; lia].
  destruct (span_digits s) as [[|d ds] rest] eqn:E; intros [= _ <-]; [lia|].
  apply span_digits_length in E. simpl. lia.
Qed.

Lemma scan_exp_length (s f r : pystr) :
  scan_exp s = (f, r) -> (length r <= length s)%nat.
Proof.
  unfold scan_exp. destruct s as [|c s]; [intros [= _ <-]; lia|].
  destruct ((c =? 101) || (c =? 69)); [|intros [= _ <-]; lia].
  destruct s as [|g r'].
  - simpl. intros [= _ <-]. simpl. lia.
  - destruct ((g =? 43) || (g =? 45)).
    + destruct (span_digits r') as [[|d ds] rest] eqn:E; intros [= _ <-]; [simpl; lia|].
      apply span_digits_length in E. simpl. lia.
    + destruct (span_digits (g :: r')) as [[|d ds] rest] eqn:E; intros [= _ <-]; [simpl; lia|].
      apply span_digits_length in E. simpl in *. lia.
Qed.

Lemma scan_number_length (s r : pystr) (v : json) :
  scan_number s = Some (v, r) -> (length r < length s)%nat.
Proof.
  unfold scan_number.
  destruct (scan_integer s) as [[[neg ds] r0]|] eqn:E0; [|discriminate].
  destruct (scan_frac r0) as [fr r1] eqn:E1.
  destruct (scan_exp r1) as [ex r2] eqn:E2.
  apply scan_integer_length in E0. apply scan_frac_length in E1.
  apply scan_exp_length in E2.
  destruct fr, ex; intros [= _ <-]; lia.
Qed.

Lemma startswith_drop (p s : pystr) :
  startswith p s = true -> p <> [] -> (length (drop (length p) s) < length s)%nat.
Proof.
  intros H Hp. apply startswith_spec in H as [t ->].
  rewrite drop_app_length, length_app. destruct p; [congruence | simpl; lia].
Qed.


Lemma scan_atom_progress (s : pystr) : progress (scan_atom s) s.
Proof.
  unfold scan_atom, progress.
  repeat match goal with
  | |- context [if startswith ?p s then _ else _] =>
      let E := fresh "E" in
      destruct (startswith p s) eqn:E;
      [ split; [discriminate|]; intros v r [= _ <-];
        apply (startswith_drop p s E); discriminate |]
  | |- context [match scan_number s with _ => _ end] =>
      let E := fresh "E" in
      destruct (scan_number s) as [[v0 r0]|] eqn:E;
      [ split; [discriminate|]; intros v r [= _ <-];
        apply (scan_number_length s r0 v0 E) |]
  end.
  split; [discriminate | discriminate].
Qed.

Lemma scan_fuel (fuel : nat) :
  (forall s, (2 * length s < fuel)%nat -> progress (scan_once fuel s) s) /\
  (forall acc s, (2 * length s < fuel)%nat -> progress (obj_members fuel acc s) s) /\
  (forall acc s, (2 * length s + 1 < fuel)%nat -> progress (arr_items fuel acc s) s).
Proof.
  induction fuel as [|f (IHs & IHo & IHa)]; [repeat split; intros; lia|].
  split; [|split].
  - intros s Hf. destruct s as [|c r]; [split; [discriminate|discriminate]|].
    cbn [scan_once]. simpl in Hf.
    destruct (c =? 34).
    { destruct (scanstring r) as [[str r']|] eqn:E; split; try discriminate.
      intros v r0 [= _ <-]. apply scanstring_length in E. simpl. lia. }
    destruct (c =? 123).
    { pose proof (skip_ws_length r) as Hws.
      destruct (skip_ws r) as [|d r'] eqn:E; [split; discriminate|].
      simpl in Hws.
      destruct (d =? 125); [split; [discriminate|]; intros v r0 [= _ <-]; simpl; lia|].
      destruct (d =? 34); [|split; discriminate].
      destruct (IHo [] r') as [H1 H2]; [lia|].
      split; [exact H1|]. intros v r0 E0. specialize (H2 v r0 E0). simpl. lia. }
    destruct (c =? 91).
    { pose proof (skip_ws_length r) as Hws.
      destruct (skip_ws r) as [|d r'] eqn:E; [split; discriminate|].
      simpl in Hws.
      destruct (d =? 93); [split; [discriminate|]; intros v r0 [= _ <-]; simpl; lia|].
      destruct (IHa [] (d :: r')) as [H1 H2]; [simpl; lia|].
      split; [exact H1|]. intros v r0 E0. specialize (H2 v r0 E0). simpl in *. lia. }
    apply scan_atom_progress.
  - intros acc s Hf. cbn [obj_members].
    destruct (scanstring s) as [[key r]|] eqn:E; [|split; discriminate].
    apply scanstring_length in E.
    pose proof (skip_ws_length r) as Hws.
    destruct (skip_ws r) as [|c r1]; [split; discriminate|]. simpl in Hws.
    destruct (c =? 58); [|split; discriminate].
    pose proof (skip_ws_length r1) as Hws1.
    destruct (IHs (skip_ws r1)) as [H1 H2]; [lia|].
    destruct (scan_once f (skip_ws r1)) as [v r2| |]; [|split; discriminate|congruence].
    specialize (H2 v r2 eq_refl).
    pose proof (skip_ws_length r2) as Hws2.
    destruct (skip_ws r2) as [|d r3]; [split; discriminate|]. simpl in Hws2.
    destruct (d =? 125); [split; [discriminate|]; intros v0 r0 [= _ <-]; lia|].
    destruct (d =? 44); [|split; discriminate].
    pose proof (skip_ws_length r3) as Hws3.
    destruct (skip_ws r3) as [|q r4]; [split; discriminate|]. simpl in Hws3.
    destruct (q =? 34); [|split; discriminate].
    destruct (IHo (dict_set key v acc) r4) as [H3 H4]; [lia|].
    split; [exact H3|]. intros v0 r0 E0. specialize (H4 v0 r0 E0). lia.
  - intros acc s Hf. cbn [arr_items].
    destruct (IHs s) as [H1 H2]; [lia|].
    destruct (scan_once f s) as [v r| |]; [|split; discriminate|congruence].
    specialize (H2 v r eq_refl).
    pose proof (skip_ws_length r) as Hws.
    destruct (skip_ws r) as [|d r1]; [split; discriminate|]. simpl in Hws.
    destruct (d =? 93); [split; [discriminate|]; intros v0 r0 [= _ <-]; lia|].
    destruct (d =? 44); [|split; discriminate].
    pose proof (skip_ws_length r1) as Hws1.
    destruct (IHa (acc ++ [v]) (skip_ws r1)) as [H3 H4]; [lia|].
    split; [exact H3|]. intros v0 r0 E0. specialize (H4 v0 r0 E0). lia.
Qed.

(** The budget [loads] hands to [scan_once] is never used up. *)
Lemma loads_never_exhausted (s : pystr) :
  scan_once (S (2 * length s)) (skip_ws s) <> Exhausted.
Proof.
  apply (proj1 (scan_fuel (S (2 * length s)))).
  pose proof (skip_ws_length s). lia.
Qed.

(** ** The credential locator *)

Lemma first_with_marker_Some (disk : filesystem) (ps : list pystr) (p : pystr) :
  first_with_marker disk ps = Some p -> p ∈ ps /\ has_marker disk p = true.
Proof.
  induction ps as [|q ps IH]; simpl; [discriminate|].
  destruct (has_marker disk q) eqn:Hq.
  - intros [= <-]. split; [left | exact Hq].
  - intros H. destruct (IH H) as [Hin Hm]. split; [right; exact Hin | exact Hm].
Qed.


Lemma find_returns_marked (h : host) (disk : filesystem) (p : pystr) :
  find_kiro_ide_credentials h disk = Ok (Some p) -> has_marker disk p = true.
Proof.
  unfold find_kiro_ide_credentials.
  destruct (first_with_marker disk (List.filter _ _)) as [q|] eqn:E1.
  - intros [= <-]. apply first_with_marker_Some in E1. apply E1.
  - destruct (exists_ disk (cache_dir h)); [|discriminate].
    destruct (glob_json disk (cache_dir h)) as [|f fs]; [discriminate|].
    destruct (with_mtimes disk (f :: fs)) as [keyed|e]; [|discriminate].
    intros [= E2]. apply first_with_marker_Some in E2. apply E2.
Qed.

Lemma with_mtimes_Ok (disk : filesystem) (ps : list pystr) (keyed : list (Z * pystr)) :
  with_mtimes disk ps = Ok keyed ->
  List.map snd keyed = ps /\
  Forall (fun mp => stat_mtime disk (snd mp) = Ok (fst mp)) keyed.
Proof.
  revert keyed; induction ps as [|p ps IH]; intros keyed; simpl.
  - intros [= <-]. split; [reflexivity | constructor].
  - destruct (stat_mtime disk p) as [m|e] eqn:Hm; [|discriminate].
    destruct (with_mtimes disk ps) as [k|e]; [|discriminate].
    intros [= <-]. destruct (IH k eq_refl) as [H1 H2].
    split; [simpl; rewrite H1; reflexivity | constructor; [exact Hm | exact H2]].
Qed.

Lemma with_mtimes_total (disk : filesystem) (ps : list pystr) :
  (forall p, p ∈ ps -> is_Some (disk !! p)) ->
  exists keyed, with_mtimes disk ps = Ok keyed.
Proof.
  induction ps as [|p ps IH]; intros H; simpl.
  - exists []. reflexivity.
  - destruct (H p) as [n Hn]; [left|].
    unfold stat_mtime. rewrite Hn.
    destruct IH as [k Hk]; [intros q Hq; apply H; right; exact Hq|].
    rewrite Hk. eexists. reflexivity.
Qed.

Lemma has_marker_exists (disk : filesystem) (p : pystr) :
  has_marker disk p = true -> is_Some (disk !! p).
Proof.
  unfold has_marker, read_text. destruct (disk !! p); [eauto | discriminate].
Qed.

(** The stable descending sort rearranges its input and puts a largest key
    first. *)
Lemma insert_desc_perm (x : Z * pystr) (l : list (Z * pystr)) :
  insert_desc x l ≡ₚ x :: l.
Proof.
  induction l as [|y l IH]; simpl; [reflexivity|].
  destruct (fst x <? fst y)%Z; [|reflexivity].
  rewrite IH. apply Permutation_swap.
Qed.

Lemma sort_desc_perm (l : list (Z * pystr)) : sort_desc l ≡ₚ l.
Proof.
  induction l as [|x l IH]; simpl; [reflexivity|].
  rewrite insert_desc_perm, IH. reflexivity.
Qed.





(** C8.  The locator's acceptance test is a occurs_in test on the text of
    the file and nothing else: a readable file whose text holds
    [accessToken] or [refreshToken] is returned as soon as the scan reaches
    it; one whose text holds neither is skipped, and the locator never
    returns it.  The text is not parsed. *)
Theorem locator_accepts_by_substring
    (h : host) (disk : filesystem) (p text : pystr) (rest : list pystr) :
  read_text disk p = Ok text ->
  (occurs_in (u "accessToken") text \/ occurs_in (u "refreshToken") text ->
     first_with_marker disk (p :: rest) = Some p) /\
  (~ occurs_in (u "accessToken") text -> ~ occurs_in (u "refreshToken") text ->
     first_with_marker disk (p :: rest) = first_with_marker disk rest /\
     find_kiro_ide_credentials h disk <> Ok (Some p)).
Proof.
  intros Hread.
  assert (Hm : has_marker disk p = marker_check text)
    by (unfold has_marker; rewrite Hread; reflexivity).
  split.
  - intros Hsub. apply marker_check_spec in Hsub.
    simpl. rewrite Hm, Hsub. reflexivity.
  - intros Hno1 Hno2.
    assert (Hf : marker_check text = false).
    { destruct (marker_check text) eqn:E; [|reflexivity].
      apply marker_check_spec in E. tauto. }
    split.
    + simpl. rewrite Hm, Hf. reflexivity.
    + intros Hfind. apply find_returns_marked in Hfind. congruence.
Qed.

(** A file that is not JSON at all is accepted on the strength of the
    occurs_in. *)
Lemma locator_accepts_by_substring_witness :
  read_text disk_cache (u "/home/op/.aws/sso/cache/b.json")
    = Ok (u "refreshToken = not even json") /\
  Decoder.loads (u "refreshToken = not even json") = None /\
  first_with_marker disk_cache [u "/home/op/.aws/sso/cache/b.json"]
    = Some (u "/home/op/.aws/sso/cache/b.json").
Proof.
  split; [vm_compute; reflexivity|]. split; [vm_compute; reflexivity|].
  apply (locator_accepts_by_substring sample_host disk_cache
           (u "/home/op/.aws/sso/cache/b.json") (u "refreshToken = not even json") []).
  - vm_compute; reflexivity.
  - right. apply contains_spec. vm_compute; reflexivity.
Defined.



(** ** The configuration store *)

Lemma dict_set_fresh (k : pystr) (v : json) (d : dict) :
  dict_get k d = None -> dict_set k v d = d ++ [(k, v)].
Proof.
  induction d as [|[k' v'] d IH]; simpl; [reflexivity|].
  destruct (pystr_eqb k k'); [discriminate|]. intros H. rewrite (IH H). reflexivity.
Qed.

Lemma dict_get_app_fresh (k k' : pystr) (v : json) (d : dict) :
  k <> k' -> dict_get k (d ++ [(k', v)]) = dict_get k d.
Proof.
  intros Hne. induction d as [|[k0 v0] d IH]; simpl.
  - unfold pystr_eqb. rewrite bool_decide_eq_false_2 by exact Hne. reflexivity.
  - destruct (pystr_eqb k k0); [reflexivity | exact IH].
Qed.

Lemma dict_get_None_notin (k : pystr) (d : dict) :
  k ∉ List.map fst d -> dict_get k d = None.
Proof.
  induction d as [|[k' v'] d IH]; simpl; [reflexivity|].
  intros H. apply not_elem_of_cons in H as [Hne Hin].
  unfold pystr_eqb. rewrite bool_decide_eq_false_2 by exact Hne. apply IH, Hin.
Qed.

(** With pairwise distinct keys, storing the items one by one rebuilds the
    dictionary in its order. *)
Lemma store_items_distinct (c : config) (acc : dict) :
  NoDup (List.map fst acc ++ List.map fst c) ->
  store_items c acc = acc ++ List.map (fun kv => (fst kv, json_of_pyval (snd kv))) c.
Proof.
  revert acc; induction c as [|[k v] c IH]; intros acc Hnd.
  - simpl. rewrite app_nil_r. reflexivity.
  - change (store_items ((k, v) :: c) acc)
      with (store_items c (dict_set k (json_of_pyval v) acc)).
    simpl in Hnd. apply NoDup_app in Hnd as (Hacc & Hdisj & Hc).
    apply NoDup_cons in Hc as [Hk Hc].
    assert (Hfresh : k ∉ List.map fst acc).
    { intros Hin. apply (Hdisj k Hin). left. }
    rewrite (dict_set_fresh k _ acc (dict_get_None_notin k acc Hfresh)).
    rewrite IH.
    + rewrite <- app_assoc. reflexivity.
    + rewrite map_app. simpl. rewrite <- app_assoc. simpl.
      apply NoDup_app. split; [exact Hacc|]. split.
      * intros x Hx Hx'. apply elem_of_cons in Hx' as [-> | Hx']; [exact (Hfresh Hx)|].
        apply (Hdisj x Hx). right. exact Hx'.
      * apply NoDup_cons. split; assumption.
Qed.

(** [json.loads(json.dumps(c, ...)) == c] for a dictionary: its keys are
    distinct. *)
Lemma loads_dumps_config (c : config) :
  NoDup (List.map fst c) ->
  loads (dumps c) = Some (json_of_config c).
Proof.
  intros Hnd. rewrite loads_dumps, store_items_distinct by exact Hnd. reflexivity.
Qed.

Lemma gateway_config_keys (credentials_file api_key : pystr) (port : Z) :
  NoDup (List.map fst (gateway_config credentials_file api_key port)).
Proof.
  simpl. repeat (apply NoDup_cons; split); try apply NoDup_nil_2;
    rewrite ?not_elem_of_cons; repeat split; try apply not_elem_of_nil;
    vm_compute; discriminate.
Qed.

Lemma joinpath_neq (d name : pystr) : joinpath d name <> d.
Proof.
  unfold joinpath. intros H. apply (f_equal length) in H.
  rewrite length_app in H. simpl in H. lia.
Qed.

Lemma config_file_not_dir (h : host) : CONFIG_FILE h <> CONFIG_DIR h.
Proof. apply joinpath_neq. Qed.

Lemma config_file_not_home (h : host) : CONFIG_FILE h <> home h.
Proof.
  unfold CONFIG_FILE, CONFIG_DIR, joinpath. intros H. apply (f_equal length) in H.
  rewrite !length_app in H. simpl in H. lia.
Qed.

Lemma config_dir_not_home (h : host) : CONFIG_DIR h <> home h.
Proof. apply joinpath_neq. Qed.

(** What [mkdir] leaves behind. *)
Lemma mkdir_p_Ok (h : host) (disk disk1 : filesystem) :
  mkdir_p h disk (home h) (u ".kiro-proxy") = Ok disk1 ->
  is_directory (disk1 !! CONFIG_DIR h) /\
  disk1 !! CONFIG_FILE h = disk !! CONFIG_FILE h.
Proof.
  unfold mkdir_p. fold (CONFIG_DIR h).
  pose proof (config_file_not_dir h) as H1. pose proof (config_file_not_home h) as H2.
  destruct (disk !! CONFIG_DIR h) as [[m [t| |es]]|] eqn:E; try discriminate.
  - intros [= <-]. split; [rewrite E; eexists _, _; reflexivity | reflexivity].
  - destruct (disk !! home h) as [[m [t| |es]]|]; try discriminate; intros [= <-];
      (split; [rewrite lookup_insert_eq; eexists _, _; reflexivity|]);
      rewrite !lookup_insert_ne by congruence; reflexivity.
Qed.

(** What a successful [save_config] leaves behind: the file holds exactly
    the text of the dump, in a directory that exists. *)
Lemma save_config_Ok (h : host) (disk disk' : filesystem) (c : config) :
  save_config h disk c = Ok disk' ->
  read_text disk' (CONFIG_FILE h) = Ok (dumps c) /\
  is_directory (disk' !! CONFIG_DIR h).
Proof.
  unfold save_config.
  destruct (mkdir_p h disk (home h) (u ".kiro-proxy")) as [disk1|e] eqn:Em; [|discriminate].
  apply mkdir_p_Ok in Em as [(m & es & Hd) _].
  unfold write_text. fold (CONFIG_FILE h). rewrite Hd.
  pose proof (config_file_not_dir h) as Hne.
  destruct (disk1 !! CONFIG_FILE h) as [[m' [t| |es']]|];
    try discriminate;
    (destruct (encodable (dumps c)); [|discriminate]); intros [= <-];
    unfold read_text; rewrite lookup_insert_eq;
    (split; [reflexivity|]);
    rewrite ?lookup_insert_ne by congruence;
    rewrite ?lookup_insert_eq; rewrite ?Hd; eexists _, _; reflexivity.
Qed.

Lemma get_config_reads (h : host) (disk : filesystem) (text : pystr) :
  read_text disk (CONFIG_FILE h) = Ok text ->
  get_config h disk = default (JObj []) (loads text).
Proof.
  intros Hr. unfold get_config, exists_. rewrite Hr.
  unfold read_text in Hr.
  destruct (disk !! CONFIG_FILE h) eqn:E; [|discriminate].
  rewrite bool_decide_eq_true_2 by eauto.
  destruct (loads text); reflexivity.
Qed.









(** Loading after a save that returned. *)
Lemma save_then_load_core (h : host) (disk : filesystem)
    (credentials_file api_key : pystr) (port : Z) (disk' : filesystem) :
  save_config h disk (gateway_config credentials_file api_key port) = Ok disk' ->
  get_config h disk' = json_of_config (gateway_config credentials_file api_key port) /\
  is_directory (disk' !! CONFIG_DIR h).
Proof.
  intros Hsave. apply save_config_Ok in Hsave as [Hread Hdir].
  split; [|exact Hdir].
  rewrite (get_config_reads h disk' _ Hread).
  rewrite (loads_dumps_config _ (gateway_config_keys _ _ _)). reflexivity.
Qed.





(** ** The generated key *)

Lemma b64url_char_safe (n : N) : url_safe (b64url_char n).
Proof.
  unfold url_safe, b64url_char.
  destruct (n <? 26) eqn:E1; [apply N.ltb_lt in E1; lia|]. apply N.ltb_ge in E1.
  destruct (n <? 52) eqn:E2; [apply N.ltb_lt in E2; lia|]. apply N.ltb_ge in E2.
  destruct (n <? 62) eqn:E3; [apply N.ltb_lt in E3; lia|].
  destruct (n =? 62); lia.
Qed.








Lemma token_16_shape (h : host) :
  length (token_urlsafe (token_bytes h 16)) = 22%nat /\
  Forall url_safe (token_urlsafe (token_bytes h 16)).
Proof.
  unfold token_urlsafe, token_bytes.
  cbn [seq List.map]. cbn [b64url app].
  split; [cbn [length]; reflexivity|].
  repeat (apply Forall_cons; split; [apply b64url_char_safe|]). apply Forall_nil_2.
Qed.

(** ** [install] *)

Lemma install_chooses (h : host) (disk : filesystem) (credentials_file : option pystr)
    (ide : bool) (api_key : option pystr) (creds_path : pystr) :
  chooses h disk credentials_file ide creds_path ->
  install h disk credentials_file ide api_key
  = install_with h disk (if ide then [MsgSearching; MsgFound creds_path] else [])
      creds_path api_key.
Proof.
  intros [[-> Hfind] | [-> (s & -> & Hs & ->)]]; unfold install.
  - rewrite Hfind. reflexivity.
  - destruct s as [|c s]; [congruence | reflexivity].
Qed.

Lemma install_with_returned (h : host) (disk disk' : filesystem) (pre : list message)
    (creds_path : pystr) (api_key : option pystr) :
  final (install_with h disk pre creds_path api_key) = Returned disk' ->
  validate_credentials disk creds_path = inr tt /\
  save_config h disk (gateway_config creds_path (stored_key h api_key) 8000) = Ok disk' /\
  shown (install_with h disk pre creds_path api_key)
  = pre ++ [MsgChecking; MsgValid creds_path]
        ++ match api_key with
           | Some (_ :: _) => []
           | _ => [MsgGeneratedKey (stored_key h api_key)]
           end
        ++ [MsgSaved].
Proof.
  unfold install_with.
  destruct (validate_credentials disk creds_path) as [m|[]]; [discriminate|].
  change (install_config ?p ?k) with (gateway_config p k 8000).
  destruct api_key as [[|c k]|]; cbn [stored_key default from_option id];
    rewrite ?bool_decide_eq_true_2 by reflexivity;
    rewrite ?bool_decide_eq_false_2 by discriminate;
    match goal with
    | |- context [save_config ?a ?b ?c] => destruct (save_config a b c) as [d|e] eqn:Es
    end; cbn [final shown]; try discriminate;
    intros [= <-]; (split; [reflexivity|]); (split; [reflexivity|]);
    rewrite <- ?app_assoc; reflexivity.
Qed.

Lemma install_returned (h : host) (disk disk' : filesystem)
    (credentials_file : option pystr) (ide : bool) (api_key : option pystr) :
  final (install h disk credentials_file ide api_key) = Returned disk' ->
  exists creds_path,
    chooses h disk credentials_file ide creds_path /\
    final (install_with h disk (if ide then [MsgSearching; MsgFound creds_path] else [])
             creds_path api_key) = Returned disk'.
Proof.
  unfold install, chooses. destruct ide.
  - destruct (find_kiro_ide_credentials h disk) as [[p|]|e]; try discriminate.
    intros H. exists p. split; [left; split; reflexivity | exact H].
  - destruct credentials_file as [[|c s]|]; try discriminate.
    intros H. exists (resolve h (c :: s)). split; [|exact H].
    right. split; [reflexivity|]. exists (c :: s). repeat split. discriminate.
Qed.

(** C2.  After a successful [install] the configuration file holds exactly
    the dump of the three entries [credentials_file] (the path the command
    settled on), [api_key] (the key given, or the generated one) and
    [port] 8000, and loading it returns exactly these three entries,
    whatever the file held before. *)
Theorem install_persists_config (h : host) (disk disk' : filesystem)
    (credentials_file : option pystr) (ide : bool) (api_key : option pystr) :
  final (install h disk credentials_file ide api_key) = Returned disk' ->
  exists creds_path,
    chooses h disk credentials_file ide creds_path /\
    read_text disk' (CONFIG_FILE h)
    = Ok (dumps (gateway_config creds_path (stored_key h api_key) 8000)) /\
    get_config h disk'
    = JObj [(u "credentials_file", JStr creds_path);
            (u "api_key", JStr (stored_key h api_key));
            (u "port", JInt 8000)].
Proof.
  intros H. apply install_returned in H as (p & Hp & H).
  apply install_with_returned in H as (_ & Hsave & _).
  exists p. split; [exact Hp|].
  split; [apply (save_config_Ok h disk disk' _ Hsave)|].
  apply (proj1 (save_then_load_core h disk p (stored_key h api_key) 8000 disk' Hsave)).
Qed.

(** The scenario of the specification: a credentials file holding one
    [accessToken], the key [mykey], over an earlier configuration on port
    9000 with the key [old]. *)
Lemma install_persists_config_witness :
  exists disk',
    final (install sample_host disk_configured (Some (u "/srv/creds.json")) false
             (Some (u "mykey"))) = Returned disk' /\
    get_config sample_host disk'
    = JObj [(u "credentials_file", JStr (u "/srv/creds.json"));
            (u "api_key", JStr (u "mykey"));
            (u "port", JInt 8000)].
Proof.
  assert (H : exists d, final (install sample_host disk_configured
                (Some (u "/srv/creds.json")) false (Some (u "mykey"))) = Returned d)
    by (eexists; vm_compute; reflexivity).
  destruct H as [d H]. exists d. split; [exact H|].
  destruct (install_persists_config sample_host disk_configured d _ _ _ H)
    as (p & [[Hide _] | [_ (s & Hs & _ & ->)]] & _ & Hg); [discriminate|].
  injection Hs as <-. exact Hg.
Defined.





(** C10.  Whatever [install] is given, when it succeeds the configuration
    it leaves holds a non-empty string under [api_key]: the operator's key
    when it is not the empty string, and the generated token when no key or
    the empty string was given. *)
Theorem install_key_nonempty (h : host) (disk disk' : filesystem)
    (credentials_file : option pystr) (ide : bool) (api_key : option pystr) :
  final (install h disk credentials_file ide api_key) = Returned disk' ->
  exists d key,
    get_config h disk' = JObj d /\
    dict_get (u "api_key") d = Some (JStr key) /\
    key <> [] /\
    (api_key = None \/ api_key = Some [] -> key = token_urlsafe (token_bytes h 16)) /\
    (forall k, api_key = Some k -> k <> [] -> key = k).
Proof.
  intros H. apply install_returned in H as (p & Hp & H).
  apply install_with_returned in H as (_ & Hsave & _).
  apply save_then_load_core in Hsave as [Hg _].
  eexists _, (stored_key h api_key). split; [exact Hg|]. split; [reflexivity|].
  split; [|split].
  - destruct api_key as [[|c k]|]; cbn [stored_key]; try discriminate;
      intros E; apply (f_equal length) in E;
      rewrite (proj1 (token_16_shape h)) in E; discriminate.
  - intros [-> | ->]; reflexivity.
  - intros k -> Hk. destruct k; [congruence | reflexivity].
Qed.

(** An empty key on the command line ends as a generated key. *)
Lemma install_key_nonempty_witness :
  exists disk' d,
    final (install sample_host disk_fresh (Some (u "/srv/creds.json")) false (Some []))
    = Returned disk' /\
    get_config sample_host disk' = JObj d /\
    dict_get (u "api_key") d = Some (JStr (token_urlsafe (token_bytes sample_host 16))) /\
    token_urlsafe (token_bytes sample_host 16) <> [].
Proof.
  assert (H : exists d, final (install sample_host disk_fresh
                (Some (u "/srv/creds.json")) false (Some [])) = Returned d)
    by (eexists; vm_compute; reflexivity).
  destruct H as [disk' H].
  destruct (install_key_nonempty sample_host disk_fresh disk' _ _ _ H)
    as (d & key & Hg & Hk & Hne & Hgen & _).
  rewrite (Hgen (or_intror eq_refl)) in Hk, Hne.
  exists disk', d. repeat split; assumption.
Defined.

(** ** [start] *)






(** * Further properties *)

(** ** The locator *)

(** X1.  The canonical token file wins: when it is there and carries a
    marker it is returned, whatever the cache directory holds, newer token
    files and entries that cannot be examined included. *)
Theorem locate_canonical_first (h : host) (disk : filesystem) :
  has_marker disk (canonical h) = true ->
  find_kiro_ide_credentials h disk = Ok (Some (canonical h)).
Proof.
  intros Hm. unfold find_kiro_ide_credentials, possible_paths. fold (canonical h).
  cbn [List.filter]. unfold exists_ at 1.
  rewrite bool_decide_eq_true_2 by (apply has_marker_exists, Hm).
  cbn [first_with_marker]. rewrite Hm. reflexivity.
Qed.

Lemma locate_canonical_first_witness :
  stat_mtime disk_canonical (u "/home/op/.aws/sso/cache/new.json") = Ok 99%Z /\
  stat_mtime disk_canonical (canonical sample_host) = Ok 10%Z /\
  stat_mtime disk_canonical (u "/home/op/.aws/sso/cache/ghost.json") = Raise FileNotFoundError /\
  find_kiro_ide_credentials sample_host disk_canonical = Ok (Some (canonical sample_host)).
Proof.
  repeat (split; [vm_compute; reflexivity|]).
  apply (locate_canonical_first sample_host disk_canonical). vm_compute. reflexivity.
Defined.

Lemma glob_json_elem (disk : filesystem) (d p : pystr) :
  p ∈ glob_json disk d ->
  exists m entries name,
    disk !! d = Some {| st_mtime := m; body := Directory entries |} /\
    name ∈ entries /\ endswith (u ".json") name = true /\ p = joinpath d name.
Proof.
  unfold glob_json.
  destruct (disk !! d) as [[m [t| |entries]]|]; intros H; try (inversion H; fail).
  apply list_elem_of_fmap in H as [name [-> Hn]].
  apply list_elem_of_In, filter_In in Hn as [Hn He]. apply list_elem_of_In in Hn.
  exists m, entries, name. repeat split; assumption.
Qed.

Lemma find_origin (h : host) (disk : filesystem) (p : pystr) :
  find_kiro_ide_credentials h disk = Ok (Some p) ->
  p = canonical h \/
  exists m entries name,
    disk !! cache_dir h = Some {| st_mtime := m; body := Directory entries |} /\
    name ∈ entries /\ endswith (u ".json") name = true /\
    p = joinpath (cache_dir h) name.
Proof.
  intros H. unfold find_kiro_ide_credentials in H.
  destruct (first_with_marker disk (List.filter _ _)) as [q|] eqn:E1.
  - injection H as <-. apply first_with_marker_Some in E1 as [Hin _].
    apply list_elem_of_In, filter_In in Hin as [Hin _].
    left. destruct Hin as [<- | []]. reflexivity.
  - destruct (exists_ disk (cache_dir h)); [|discriminate].
    destruct (glob_json disk (cache_dir h)) as [|f fs] eqn:G; [discriminate|].
    destruct (with_mtimes disk (f :: fs)) as [keyed|e] eqn:Ek; [|discriminate].
    injection H as E2. apply first_with_marker_Some in E2 as [Hin _].
    apply with_mtimes_Ok in Ek as [Hpaths _].
    apply list_elem_of_fmap in Hin as [x [-> Hx]].
    rewrite (sort_desc_perm keyed) in Hx.
    assert (Hq : snd x ∈ glob_json disk (cache_dir h)).
    { rewrite G, <- Hpaths. apply (list_elem_of_fmap_2 snd _ _ Hx). }
    right. apply glob_json_elem, Hq.
Qed.

(** X2.  Whatever the locator returns is the canonical path or an entry of
    the cache directory whose name ends in [.json], and it is a file that
    can be read and whose text holds a marker. *)
Theorem locate_sound (h : host) (disk : filesystem) (p : pystr) :
  find_kiro_ide_credentials h disk = Ok (Some p) ->
  (p = canonical h \/
   exists m entries name,
     disk !! cache_dir h = Some {| st_mtime := m; body := Directory entries |} /\
     name ∈ entries /\ endswith (u ".json") name = true /\
     p = joinpath (cache_dir h) name) /\
  exists text, read_text disk p = Ok text /\
    (occurs_in (u "accessToken") text \/ occurs_in (u "refreshToken") text).
Proof.
  intros H. split; [apply find_origin, H|].
  apply find_returns_marked in H. unfold has_marker in H.
  destruct (read_text disk p) as [text|e]; [|discriminate].
  exists text. split; [reflexivity | apply marker_check_spec, H].
Qed.

(** The newest file of the sample cache is [notes.txt], which carries a
    marker; it is not returned. *)
Lemma locate_sound_witness :
  stat_mtime disk_cache (u "/home/op/.aws/sso/cache/notes.txt") = Ok 99%Z /\
  has_marker disk_cache (u "/home/op/.aws/sso/cache/notes.txt") = true /\
  exists p, find_kiro_ide_credentials sample_host disk_cache = Ok (Some p) /\
    (p = canonical sample_host \/
     exists m entries name,
       disk_cache !! cache_dir sample_host
       = Some {| st_mtime := m; body := Directory entries |} /\
       name ∈ entries /\ endswith (u ".json") name = true /\
       p = joinpath (cache_dir sample_host) name).
Proof.
  split; [vm_compute; reflexivity|]. split; [vm_compute; reflexivity|].
  exists (u "/home/op/.aws/sso/cache/b.json").
  assert (H : find_kiro_ide_credentials sample_host disk_cache
              = Ok (Some (u "/home/op/.aws/sso/cache/b.json")))
    by (vm_compute; reflexivity).
  split; [exact H|]. exact (proj1 (locate_sound sample_host disk_cache _ H)).
Defined.

Lemma insert_desc_descending (x : Z * pystr) (l : list (Z * pystr)) :
  descending l -> descending (insert_desc x l).
Proof.
  induction l as [|y l IH]; cbn [insert_desc descending].
  - intros _. split; [constructor | exact I].
  - intros [Hy Hl]. destruct (fst x <? fst y)%Z eqn:E; cbn [descending].
    + split; [|apply IH, Hl]. rewrite insert_desc_perm. constructor; [|exact Hy].
      apply Z.ltb_lt in E. lia.
    + apply Z.ltb_ge in E. split; [|split; assumption].
      constructor; [exact E|]. eapply Forall_impl; [exact Hy|]. intros z Hz. simpl in *. lia.
Qed.

Lemma sort_desc_descending (l : list (Z * pystr)) : descending (sort_desc l).
Proof.
  induction l as [|x l IH]; [exact I|]. apply insert_desc_descending, IH.
Qed.

Lemma first_marked_keyed (disk : filesystem) (s : list (Z * pystr)) (p : pystr) :
  descending s ->
  first_with_marker disk (List.map snd s) = Some p ->
  exists m, (m, p) ∈ s /\
    forall y, y ∈ s -> has_marker disk (snd y) = true -> (fst y <= m)%Z.
Proof.
  induction s as [|[m0 p0] s IH]; cbn [List.map first_with_marker descending snd];
    [discriminate|].
  intros [Hhead Hs]. destruct (has_marker disk p0) eqn:Hm.
  - intros [= <-]. exists m0. split; [left|].
    intros y Hy _. apply elem_of_cons in Hy as [-> | Hy]; [simpl; lia|].
    rewrite Forall_forall in Hhead. apply (Hhead y Hy).
  - intros H. destruct (IH Hs H) as (m & Hin & Hmax).
    exists m. split; [right; exact Hin|].
    intros y Hy Hmark. apply elem_of_cons in Hy as [-> | Hy]; [simpl in Hmark; congruence|].
    apply Hmax; assumption.
Qed.

Lemma first_with_marker_finds (disk : filesystem) (ps : list pystr) (q : pystr) :
  q ∈ ps -> has_marker disk q = true -> exists p, first_with_marker disk ps = Some p.
Proof.
  induction ps as [|a ps IH]; intros Hin Hm; [inversion Hin|].
  cbn [first_with_marker]. destruct (has_marker disk a) eqn:Ha; [eauto|].
  apply elem_of_cons in Hin as [-> | Hin]; [congruence|]. apply IH; assumption.
Qed.

Lemma canonical_fails (h : host) (disk : filesystem) :
  has_marker disk (canonical h) = false ->
  first_with_marker disk (List.filter (exists_ disk) (possible_paths h)) = None.
Proof.
  intros Hc. unfold possible_paths. fold (canonical h). cbn [List.filter].
  destruct (exists_ disk (canonical h)); cbn [first_with_marker]; rewrite ?Hc; reflexivity.
Qed.

Lemma glob_nonempty_dir (disk : filesystem) (d p : pystr) :
  p ∈ glob_json disk d -> exists_ disk d = true.
Proof.
  intros H. apply glob_json_elem in H as (m & es & n & Hd & _).
  unfold exists_. apply bool_decide_eq_true. rewrite Hd. eauto.
Qed.

(** X3.  When the canonical file does not qualify, the file returned from
    the cache is the most recently modified among the [*.json] entries that
    carry a marker: entries without marker, directories and files that
    cannot be read are passed over however new they are.  And something is
    returned as soon as one entry carries a marker and every entry can be
    examined. *)
Theorem locate_newest_marked (h : host) (disk : filesystem) :
  has_marker disk (canonical h) = false ->
  (forall p, find_kiro_ide_credentials h disk = Ok (Some p) ->
     exists m, stat_mtime disk p = Ok m /\
       forall q m', q ∈ glob_json disk (cache_dir h) -> has_marker disk q = true ->
         stat_mtime disk q = Ok m' -> (m' <= m)%Z) /\
  (forall q, q ∈ glob_json disk (cache_dir h) -> has_marker disk q = true ->
     Forall (fun p => is_Some (disk !! p)) (glob_json disk (cache_dir h)) ->
     exists p, find_kiro_ide_credentials h disk = Ok (Some p)).
Proof.
  intros Hc. pose proof (canonical_fails h disk Hc) as E1.
  unfold find_kiro_ide_credentials. rewrite E1. split.
  - intros p. destruct (exists_ disk (cache_dir h)); [|discriminate].
    destruct (glob_json disk (cache_dir h)) as [|f fs] eqn:G; [discriminate|].
    destruct (with_mtimes disk (f :: fs)) as [keyed|e] eqn:Ek; [|discriminate].
    intros [= Hfirst]. apply with_mtimes_Ok in Ek as [Hpaths Hstat].
    rewrite Forall_forall in Hstat.
    apply first_marked_keyed in Hfirst as (m & Hin & Hmax);
      [|apply sort_desc_descending].
    rewrite (sort_desc_perm keyed) in Hin.
    exists m. split; [apply (Hstat _ Hin)|].
    intros q m' Hq Hmark Hm'. rewrite <- Hpaths in Hq.
    apply list_elem_of_fmap in Hq as [[m'' q'] [-> Hq]].
    pose proof (Hstat _ Hq) as Hs. simpl in Hs, Hm', Hmark. rewrite Hs in Hm'.
    injection Hm' as ->.
    apply (Hmax (m', q')); [rewrite (sort_desc_perm keyed); exact Hq | exact Hmark].
  - intros q Hq Hmark Hall.
    rewrite (glob_nonempty_dir disk _ q Hq).
    destruct (glob_json disk (cache_dir h)) as [|f fs] eqn:G; [inversion Hq|].
    rewrite Forall_forall in Hall.
    destruct (with_mtimes_total disk (f :: fs) Hall) as [keyed Hk]. rewrite Hk.
    apply with_mtimes_Ok in Hk as [Hpaths _].
    destruct (first_with_marker_finds disk (List.map snd (sort_desc keyed)) q) as [p Hp];
      [|exact Hmark|rewrite Hp; eauto].
    rewrite <- Hpaths in Hq. apply list_elem_of_fmap in Hq as [x [-> Hx]].
    apply (list_elem_of_fmap_2 snd). rewrite (sort_desc_perm keyed). exact Hx.
Qed.

(** In the mixed sample cache the three newest entries are a file that is
    not text, a directory and a file without marker; the token file of
    time 50 is returned, not the one of time 10. *)
Lemma locate_newest_marked_witness :
  find_kiro_ide_credentials sample_host disk_mixed
  = Ok (Some (u "/home/op/.aws/sso/cache/mid.json")) /\
  exists m, stat_mtime disk_mixed (u "/home/op/.aws/sso/cache/mid.json") = Ok m /\
    forall q m', q ∈ glob_json disk_mixed (cache_dir sample_host) ->
      has_marker disk_mixed q = true ->
      stat_mtime disk_mixed q = Ok m' -> (m' <= m)%Z.
Proof.
  assert (H : find_kiro_ide_credentials sample_host disk_mixed
              = Ok (Some (u "/home/op/.aws/sso/cache/mid.json")))
    by (vm_compute; reflexivity).
  split; [exact H|].
  apply (proj1 (locate_newest_marked sample_host disk_mixed
                  ltac:(vm_compute; reflexivity)) _ H).
Defined.

Lemma with_mtimes_raises (disk : filesystem) (ps : list pystr) (p : pystr) :
  p ∈ ps -> disk !! p = None -> with_mtimes disk ps = Raise FileNotFoundError.
Proof.
  intros Hin Hp. induction ps as [|a ps IH]; [inversion Hin|].
  cbn [with_mtimes]. unfold stat_mtime at 1.
  destruct (disk !! a) as [n|] eqn:Ha; [|reflexivity].
  apply elem_of_cons in Hin as [-> | Hin]; [congruence|].
  rewrite (IH Hin). reflexivity.
Qed.

(** X4.  The modification times are read before any file is opened and
    outside the [try]: when the canonical file does not qualify, one
    [*.json] entry of the cache that is listed but cannot be examined makes
    the locator raise [FileNotFoundError], token files next to it
    notwithstanding, and [install --ide] ends with that exception, nothing
    written. *)
Theorem locate_raises_on_missing_entry (h : host) (disk : filesystem) (p : pystr) :
  has_marker disk (canonical h) = false ->
  p ∈ glob_json disk (cache_dir h) -> disk !! p = None ->
  find_kiro_ide_credentials h disk = Raise FileNotFoundError /\
  forall credentials_file api_key,
    install h disk credentials_file true api_key
    = {| shown := [MsgSearching]; final := Uncaught FileNotFoundError |}.
Proof.
  intros Hc Hp Hnone.
  assert (Hfind : find_kiro_ide_credentials h disk = Raise FileNotFoundError).
  { unfold find_kiro_ide_credentials.
    rewrite (canonical_fails h disk Hc), (glob_nonempty_dir disk _ p Hp).
    destruct (glob_json disk (cache_dir h)) as [|f fs] eqn:G; [inversion Hp|].
    rewrite (with_mtimes_raises disk (f :: fs) p Hp Hnone). reflexivity. }
  split; [exact Hfind|]. intros cf k. unfold install. rewrite Hfind. reflexivity.
Qed.

Lemma locate_raises_on_missing_entry_witness :
  has_marker disk_dangling (u "/home/op/.aws/sso/cache/a.json") = true /\
  find_kiro_ide_credentials sample_host disk_dangling = Raise FileNotFoundError.
Proof.
  split; [vm_compute; reflexivity|].
  apply (locate_raises_on_missing_entry sample_host disk_dangling
           (u "/home/op/.aws/sso/cache/ghost.json")).
  - vm_compute. reflexivity.
  - assert (G : glob_json disk_dangling (cache_dir sample_host)
                = [u "/home/op/.aws/sso/cache/a.json"; u "/home/op/.aws/sso/cache/ghost.json"])
      by (vm_compute; reflexivity).
    rewrite G. right. left.
  - vm_compute. reflexivity.
Defined.

Lemma sort_desc_keeps_head (x : Z * pystr) (l : list (Z * pystr)) :
  Forall (fun y => (fst y <= fst x)%Z) l -> sort_desc (x :: l) = x :: sort_desc l.
Proof.
  intros Hle. cbn [sort_desc foldr]. fold (sort_desc l).
  assert (Hle' : Forall (fun y => (fst y <= fst x)%Z) (sort_desc l))
    by (rewrite (sort_desc_perm l); exact Hle).
  destruct (sort_desc l) as [|y t]; [reflexivity|]. cbn [insert_desc].
  apply Forall_cons in Hle' as [Hy _].
  destruct (fst x <? fst y)%Z eqn:E; [apply Z.ltb_lt in E; lia | reflexivity].
Qed.

(** X5.  Ties go to the scan order: when the canonical file does not
    qualify and the entry the scan reports first carries a marker and no
    entry is newer than it, that first entry is returned, also when others
    are exactly as new. *)
Theorem locate_tie_first_listed (h : host) (disk : filesystem)
    (f : pystr) (rest : list pystr) (m : Z) :
  has_marker disk (canonical h) = false ->
  glob_json disk (cache_dir h) = f :: rest ->
  has_marker disk f = true -> stat_mtime disk f = Ok m ->
  Forall (fun q => exists m', stat_mtime disk q = Ok m' /\ (m' <= m)%Z) rest ->
  find_kiro_ide_credentials h disk = Ok (Some f).
Proof.
  intros Hc G Hf Hm Hrest.
  unfold find_kiro_ide_credentials.
  rewrite (canonical_fails h disk Hc), (glob_nonempty_dir disk _ f ltac:(rewrite G; left)), G.
  rewrite Forall_forall in Hrest.
  destruct (with_mtimes_total disk (f :: rest)) as [keyed Hk].
  { intros q Hq. apply elem_of_cons in Hq as [-> | Hq].
    - apply has_marker_exists, Hf.
    - destruct (Hrest q Hq) as (m' & Hs & _). unfold stat_mtime in Hs.
      destruct (disk !! q); [eauto | discriminate]. }
  rewrite Hk. pose proof (with_mtimes_Ok disk _ _ Hk) as [Hpaths Hstat].
  cbn [with_mtimes] in Hk. rewrite Hm in Hk.
  destruct (with_mtimes disk rest) as [k|e] eqn:Er; [|discriminate].
  injection Hk as <-. rewrite sort_desc_keeps_head.
  - cbn [List.map first_with_marker snd]. rewrite Hf. reflexivity.
  - apply with_mtimes_Ok in Er as [Hp Hs]. rewrite Forall_forall in Hs.
    apply Forall_forall. intros [m' q] Hq. simpl.
    assert (Hq' : q ∈ rest) by (rewrite <- Hp; apply (list_elem_of_fmap_2 snd _ _ Hq)).
    destruct (Hrest q Hq') as (m'' & Hs' & Hle). pose proof (Hs _ Hq) as Hs''.
    simpl in Hs''. congruence.
Qed.

Lemma locate_tie_first_listed_witness :
  stat_mtime disk_ties (u "/home/op/.aws/sso/cache/x.json")
  = stat_mtime disk_ties (u "/home/op/.aws/sso/cache/y.json") /\
  has_marker disk_ties (u "/home/op/.aws/sso/cache/y.json") = true /\
  find_kiro_ide_credentials sample_host disk_ties
  = Ok (Some (u "/home/op/.aws/sso/cache/x.json")).
Proof.
  split; [vm_compute; reflexivity|]. split; [vm_compute; reflexivity|].
  apply (locate_tie_first_listed sample_host disk_ties _
           [u "/home/op/.aws/sso/cache/y.json"] 7%Z);
    try (vm_compute; reflexivity).
  repeat constructor. exists 7%Z. split; [vm_compute; reflexivity | lia].
Defined.

(** ** The configuration store *)

Lemma save_config_in_place (h : host) (disk : filesystem) (c : config) :
  is_directory (disk !! CONFIG_DIR h) ->
  save_config h disk c
  = match disk !! CONFIG_FILE h with
    | Some {| body := Directory _ |} => Raise IsADirectoryError
    | Some _ =>
        if encodable (dumps c)
        then Ok (<[CONFIG_FILE h := {| st_mtime := clock h; body := Text (dumps c) |}]> disk)
        else Raise UnicodeEncodeError
    | None =>
        if encodable (dumps c)
        then Ok (<[CONFIG_FILE h := {| st_mtime := clock h; body := Text (dumps c) |}]>
                   (<[CONFIG_DIR h :=
                        {| st_mtime := clock h;
                           body := Directory
                             (match disk !! CONFIG_DIR h with
                              | Some {| body := Directory es |} => es
                              | _ => []
                              end ++ [u "config.json"]) |}]> disk))
        else Raise UnicodeEncodeError
    end.
Proof.
  intros (m & es & Hd). unfold save_config, mkdir_p. fold (CONFIG_DIR h). rewrite Hd.
  unfold write_text. fold (CONFIG_FILE h). rewrite Hd. reflexivity.
Qed.



Lemma save_frame (h : host) (disk disk' : filesystem) (c : config) :
  save_config h disk c = Ok disk' ->
  (forall p, p <> CONFIG_FILE h -> p <> CONFIG_DIR h -> p <> home h ->
     disk' !! p = disk !! p) /\
  (is_directory (disk !! CONFIG_DIR h) -> disk' !! home h = disk !! home h).
Proof.
  intros Hsave. split.
  - intros p H1 H2 H3. unfold save_config in Hsave.
    destruct (mkdir_p h disk (home h) (u ".kiro-proxy")) as [disk1|e] eqn:Em; [|discriminate].
    assert (E1 : disk1 !! p = disk !! p).
    { unfold mkdir_p in Em. fold (CONFIG_DIR h) in Em.
      destruct (disk !! CONFIG_DIR h) as [[m [t| |es]]|]; try discriminate.
      - injection Em as <-. reflexivity.
      - destruct (disk !! home h) as [[m [t| |es]]|]; try discriminate;
          injection Em as <-; rewrite !lookup_insert_ne by congruence; reflexivity. }
    rewrite <- E1. unfold write_text in Hsave. fold (CONFIG_FILE h) in Hsave.
    destruct (disk1 !! CONFIG_DIR h) as [[m [t| |es]]|]; try discriminate.
    destruct (disk1 !! CONFIG_FILE h) as [[m' [t| |es']]|]; try discriminate;
      (destruct (encodable (dumps c)); [|discriminate]); injection Hsave as <-;
      rewrite !lookup_insert_ne by congruence; reflexivity.
  - intros Hdir. rewrite (save_config_in_place h disk c Hdir) in Hsave.
    pose proof (config_file_not_home h). pose proof (config_dir_not_home h).
    destruct (disk !! CONFIG_FILE h) as [[m' [t| |es']]|]; try discriminate;
      (destruct (encodable (dumps c)); [|discriminate]); injection Hsave as <-;
      rewrite !lookup_insert_ne by congruence; reflexivity.
Qed.



(** X8.  How a save fails.  A regular file in the place of the
    configuration directory raises [FileExistsError]; a missing directory
    under a home that is a regular file raises [NotADirectoryError]; a
    directory in the place of the configuration file raises
    [IsADirectoryError]; and with directory and file in order, a text that
    holds a surrogate raises [UnicodeEncodeError]. *)
Theorem save_failures (h : host) (disk : filesystem) (c : config) :
  (forall m b, disk !! CONFIG_DIR h = Some {| st_mtime := m; body := b |} ->
     (forall es, b <> Directory es) ->
     save_config h disk c = Raise FileExistsError) /\
  (forall m b, disk !! CONFIG_DIR h = None ->
     disk !! home h = Some {| st_mtime := m; body := b |} ->
     (forall es, b <> Directory es) ->
     save_config h disk c = Raise NotADirectoryError) /\
  (is_directory (disk !! CONFIG_DIR h) -> is_directory (disk !! CONFIG_FILE h) ->
     save_config h disk c = Raise IsADirectoryError) /\
  (is_directory (disk !! CONFIG_DIR h) -> ~ is_directory (disk !! CONFIG_FILE h) ->
     encodable (dumps c) = false ->
     save_config h disk c = Raise UnicodeEncodeError).
Proof.
  split; [|split; [|split]].
  - intros m b Hd Hb. unfold save_config, mkdir_p. fold (CONFIG_DIR h). rewrite Hd.
    destruct b as [t| |es]; try reflexivity. exfalso. apply (Hb es). reflexivity.
  - intros m b Hd Hh Hb. unfold save_config, mkdir_p. fold (CONFIG_DIR h).
    rewrite Hd, Hh.
    destruct b as [t| |es]; try reflexivity. exfalso. apply (Hb es). reflexivity.
  - intros Hd (m & es & Hf). rewrite (save_config_in_place h disk c Hd), Hf. reflexivity.
  - intros Hd Hf Henc. rewrite (save_config_in_place h disk c Hd), Henc.
    destruct (disk !! CONFIG_FILE h) as [[m' [t| |es']]|]; try reflexivity.
    exfalso. apply Hf. eexists _, _. reflexivity.
Qed.

(** A key that holds a lone surrogate cannot be saved. *)
Lemma save_failures_witness :
  save_config sample_host disk_configured (gateway_config (u "/a") [55357] 1)
  = Raise UnicodeEncodeError /\
  save_config sample_host
    (<[CONFIG_DIR sample_host := file 3 (u "not a directory")]> disk_fresh)
    (gateway_config (u "/a") (u "k") 1)
  = Raise FileExistsError.
Proof.
  split.
  - apply (proj2 (proj2 (proj2 (save_failures sample_host disk_configured _)))).
    + eexists _, _. vm_compute. reflexivity.
    + intros (m & es & H). vm_compute in H. discriminate.
    + vm_compute. reflexivity.
  - apply (proj1 (save_failures sample_host _ _) 3%Z (Text (u "not a directory"))).
    + vm_compute. reflexivity.
    + discriminate.
Defined.

(** ** The locator reads the cache directory only *)

Lemma startswith_joinpath (d name : pystr) : startswith d (joinpath d name) = true.
Proof. apply startswith_spec. eexists. reflexivity. Qed.

Lemma startswith_refl (d : pystr) : startswith d d = true.
Proof. apply startswith_spec. exists []. rewrite app_nil_r. reflexivity. Qed.

Lemma has_marker_ext (disk disk' : filesystem) (p : pystr) :
  disk' !! p = disk !! p -> has_marker disk' p = has_marker disk p.
Proof. intros H. unfold has_marker, read_text. rewrite H. reflexivity. Qed.

Lemma first_with_marker_ext (disk disk' : filesystem) (ps : list pystr) :
  (forall p, p ∈ ps -> disk' !! p = disk !! p) ->
  first_with_marker disk' ps = first_with_marker disk ps.
Proof.
  induction ps as [|a ps IH]; intros H; [reflexivity|]. cbn [first_with_marker].
  rewrite (has_marker_ext disk disk' a) by (apply H; left).
  rewrite IH by (intros p Hp; apply H; right; exact Hp). reflexivity.
Qed.

Lemma with_mtimes_ext (disk disk' : filesystem) (ps : list pystr) :
  (forall p, p ∈ ps -> disk' !! p = disk !! p) ->
  with_mtimes disk' ps = with_mtimes disk ps.
Proof.
  induction ps as [|a ps IH]; intros H; [reflexivity|]. cbn [with_mtimes].
  unfold stat_mtime. rewrite (H a) by left.
  rewrite IH by (intros p Hp; apply H; right; exact Hp). reflexivity.
Qed.

Lemma find_agree (h : host) (disk disk' : filesystem) :
  agree_under (cache_dir h) disk disk' ->
  find_kiro_ide_credentials h disk' = find_kiro_ide_credentials h disk.
Proof.
  intros Hag. unfold find_kiro_ide_credentials.
  assert (Hcan : disk' !! canonical h = disk !! canonical h)
    by (apply Hag, startswith_joinpath).
  assert (Hdir : disk' !! cache_dir h = disk !! cache_dir h)
    by (apply Hag, startswith_refl).
  assert (Hglob : glob_json disk' (cache_dir h) = glob_json disk (cache_dir h))
    by (unfold glob_json; rewrite Hdir; reflexivity).
  assert (Hfiles : forall p, p ∈ glob_json disk (cache_dir h) -> disk' !! p = disk !! p).
  { intros p Hp. apply glob_json_elem in Hp as (_ & _ & n & _ & _ & _ & ->).
    apply Hag, startswith_joinpath. }
  unfold possible_paths. fold (canonical h). cbn [List.filter].
  unfold exists_. rewrite Hcan, Hdir.
  destruct (bool_decide (is_Some (disk !! canonical h)));
    cbn [first_with_marker]; rewrite ?(has_marker_ext disk disk' _ Hcan);
    [destruct (has_marker disk (canonical h)); [reflexivity|]|];
    (destruct (bool_decide (is_Some (disk !! cache_dir h))); [|reflexivity]);
    rewrite Hglob;
    (destruct (glob_json disk (cache_dir h)) as [|f fs] eqn:G; [reflexivity|]);
    rewrite (with_mtimes_ext disk disk' _ Hfiles);
    (destruct (with_mtimes disk (f :: fs)) as [keyed|e] eqn:Ek; [|reflexivity]);
    f_equal; apply first_with_marker_ext; intros p Hp;
    apply Hfiles; apply with_mtimes_Ok in Ek as [Hpaths _]; rewrite <- Hpaths;
    apply list_elem_of_fmap in Hp as [x [-> Hx]];
    rewrite (sort_desc_perm keyed) in Hx; apply (list_elem_of_fmap_2 snd _ _ Hx).
Qed.

(** X9.  The locator looks at the cache directory and below, nowhere else:
    on two disks that hold the same at every path that starts with the
    cache directory it gives the same answer, be it a path, nothing, or an
    exception. *)
Theorem locate_reads_cache_only (h : host) (disk disk' : filesystem) :
  agree_under (cache_dir h) disk disk' ->
  find_kiro_ide_credentials h disk' = find_kiro_ide_credentials h disk.
Proof. apply find_agree. Qed.

(** Configuring the proxy does not change what the locator finds. *)
Lemma locate_reads_cache_only_witness :
  find_kiro_ide_credentials sample_host
    (<[u "/home/op/.kiro-proxy/config.json" := file 1 (u "{}")]>
       (<[u "/home/op/.aws/credentials" := file 2 (u "accessToken")]> disk_cache))
  = find_kiro_ide_credentials sample_host disk_cache.
Proof.
  apply (locate_reads_cache_only sample_host). intros p Hp.
  rewrite !lookup_insert_ne; [reflexivity | |];
    intros <-; vm_compute in Hp; discriminate.
Defined.

(** ** [install], further *)

Lemma chooses_unique (h : host) (disk : filesystem) (credentials_file : option pystr)
    (ide : bool) (p q : pystr) :
  chooses h disk credentials_file ide p -> chooses h disk credentials_file ide q -> p = q.
Proof.
  intros [[-> Hp] | [-> (s & Hs & _ & ->)]] [[Hi Hq] | [Hi (s' & Hs' & _ & ->)]];
    try discriminate; congruence.
Qed.

Lemma install_with_outcome (h : host) (disk : filesystem) (pre : list message)
    (creds_path : pystr) (api_key : option pystr) :
  final (install_with h disk pre creds_path api_key)
  = match validate_credentials disk creds_path with
    | inl _ => Exited 1 disk
    | inr _ =>
        match save_config h disk (gateway_config creds_path (stored_key h api_key) 8000) with
        | Ok disk' => Returned disk'
        | Raise e => Uncaught e
        end
    end.
Proof.
  unfold install_with.
  destruct (validate_credentials disk creds_path) as [m|[]]; [reflexivity|].
  change (install_config ?p ?k) with (gateway_config p k 8000).
  destruct api_key as [[|c k]|]; cbn [stored_key default from_option id];
    rewrite ?bool_decide_eq_true_2 by reflexivity;
    rewrite ?bool_decide_eq_false_2 by discriminate;
    match goal with
    | |- context [save_config ?a ?b ?c] => destruct (save_config a b c)
    end; reflexivity.
Qed.

Lemma save_config_keeps_text (h : host) (disk disk' : filesystem) (c : config)
    (p text : pystr) :
  save_config h disk c = Ok disk' -> read_text disk p = Ok text -> p <> CONFIG_FILE h ->
  disk' !! p = disk !! p.
Proof.
  intros Hsave Hread Hp.
  assert (Htext : exists m, disk !! p = Some {| st_mtime := m; body := Text text |}).
  { unfold read_text in Hread. destruct (disk !! p) as [[m [t| |es]]|]; try discriminate.
    injection Hread as ->. eauto. }
  destruct Htext as [m Hm].
  destruct (decide (p = CONFIG_DIR h)) as [->|Hd].
  { exfalso. unfold save_config, mkdir_p in Hsave. fold (CONFIG_DIR h) in Hsave.
    rewrite Hm in Hsave. discriminate. }
  destruct (decide (p = home h)) as [->|Hh].
  - apply (proj2 (save_frame h disk disk' c Hsave)).
    unfold save_config, mkdir_p in Hsave. fold (CONFIG_DIR h) in Hsave.
    destruct (disk !! CONFIG_DIR h) as [[m' [t| |es]]|]; try discriminate.
    + eexists _, _. reflexivity.
    + rewrite Hm in Hsave. discriminate.
  - apply (proj1 (save_frame h disk disk' c Hsave)); assumption.
Qed.

Lemma save_config_encodable (h : host) (disk disk' : filesystem) (c : config) :
  save_config h disk c = Ok disk' -> encodable (dumps c) = true.
Proof.
  intros Hsave. unfold save_config in Hsave.
  destruct (mkdir_p h disk (home h) (u ".kiro-proxy")) as [disk1|e]; [|discriminate].
  unfold write_text in Hsave.
  destruct (disk1 !! CONFIG_DIR h) as [[m [t| |es]]|]; try discriminate.
  destruct (disk1 !! joinpath (CONFIG_DIR h) (u "config.json")) as [[m' [t| |es']]|];
    try discriminate; destruct (encodable (dumps c)); congruence.
Qed.

(** Saving the same configuration again, later, rewrites the file with the
    same text. *)
Lemma save_config_later (h : host) (disk disk' : filesystem) (c : config)
    (t : Z) (r : nat -> Byte.byte) :
  save_config h disk c = Ok disk' ->
  save_config (later h t r) disk' c
  = Ok (<[CONFIG_FILE h := {| st_mtime := t; body := Text (dumps c) |}]> disk').
Proof.
  intros Hsave. pose proof (save_config_Ok h disk disk' c Hsave) as [Hread Hdir].
  rewrite (save_config_in_place (later h t r) disk' c Hdir).
  change (CONFIG_FILE (later h t r)) with (CONFIG_FILE h).
  change (clock (later h t r)) with t.
  unfold read_text in Hread.
  destruct (disk' !! CONFIG_FILE h) as [[m [tx| |es]]|]; try discriminate.
  rewrite (save_config_encodable h disk disk' c Hsave). reflexivity.
Qed.

Lemma validate_credentials_ext (disk disk' : filesystem) (p : pystr) :
  disk' !! p = disk !! p -> validate_credentials disk' p = validate_credentials disk p.
Proof. intros H. unfold validate_credentials, read_text. rewrite H. reflexivity. Qed.

Lemma validated_reads (disk : filesystem) (p : pystr) :
  validate_credentials disk p = inr tt -> exists text, read_text disk p = Ok text.
Proof.
  unfold validate_credentials. destruct (read_text disk p); [eauto | discriminate].
Qed.





Lemma validate_accepts (disk : filesystem) (p text : pystr) (v : json) :
  read_text disk p = Ok text -> loads text = Some v ->
  py_in (u "accessToken") v = Ok true \/
  (py_in (u "accessToken") v = Ok false /\ py_in (u "refreshToken") v = Ok true) ->
  validate_credentials disk p = inr tt.
Proof.
  intros Hr Hl H. unfold validate_credentials. rewrite Hr, Hl.
  destruct H as [-> | [-> ->]]; reflexivity.
Qed.

(** X12.  The validation of [install] is Python's [in], which asks more of
    an object than of other values: a JSON array passes when one of its
    items is the string [accessToken] or [refreshToken], a JSON string
    passes when it contains one of the two words, and the command goes on
    to save; a number, a boolean or null ends the command with status 1
    after the error-reading line for a [TypeError], not the missing-token
    line. *)
Theorem install_validates_by_membership (h : host) (disk : filesystem)
    (credentials_file : option pystr) (ide : bool) (api_key : option pystr)
    (creds_path text : pystr) (v : json) :
  chooses h disk credentials_file ide creds_path ->
  read_text disk creds_path = Ok text -> loads text = Some v ->
  (forall items disk', v = JArr items ->
     JStr (u "accessToken") ∈ items \/ JStr (u "refreshToken") ∈ items ->
     save_config h disk (gateway_config creds_path (stored_key h api_key) 8000) = Ok disk' ->
     final (install h disk credentials_file ide api_key) = Returned disk') /\
  (forall s disk', v = JStr s ->
     occurs_in (u "accessToken") s \/ occurs_in (u "refreshToken") s ->
     save_config h disk (gateway_config creds_path (stored_key h api_key) 8000) = Ok disk' ->
     final (install h disk credentials_file ide api_key) = Returned disk') /\
  (is_scalar v = true ->
     final (install h disk credentials_file ide api_key) = Exited 1 disk /\
     last (shown (install h disk credentials_file ide api_key))
     = Some (MsgErrorReading TypeError)).
Proof.
  intros Hch Hr Hl. rewrite (install_chooses h disk _ _ api_key _ Hch).
  assert (Hmem : forall k items, JStr k ∈ items ->
            existsb (fun x => match x with JStr s => pystr_eqb s k | _ => false end) items
            = true).
  { intros k items Hin. apply existsb_exists. exists (JStr k).
    split; [apply list_elem_of_In, Hin|]. unfold pystr_eqb. apply bool_decide_eq_true.
    reflexivity. }
  split; [|split].
  - intros items disk' -> Hin Hsave. rewrite install_with_outcome.
    rewrite (validate_accepts disk creds_path text (JArr items) Hr Hl), Hsave; [reflexivity|].
    cbn [py_in].
    destruct Hin as [Hin | Hin]; [left; rewrite (Hmem _ _ Hin); reflexivity|].
    rewrite (Hmem (u "refreshToken") _ Hin).
    destruct (existsb _ items); [left; reflexivity | right; split; reflexivity].
  - intros s disk' -> Hin Hsave. rewrite install_with_outcome.
    rewrite (validate_accepts disk creds_path text (JStr s) Hr Hl), Hsave; [reflexivity|].
    cbn [py_in]. rewrite <- !contains_spec in Hin.
    destruct (contains (u "accessToken") s); [left; reflexivity|].
    right. split; [reflexivity|]. destruct Hin as [Hin | Hin]; [discriminate|].
    rewrite Hin. reflexivity.
  - intros Hs. unfold install_with, validate_credentials. rewrite Hr, Hl.
    destruct v; try discriminate; cbn [py_in final shown];
      (split; [reflexivity|]);
      change [MsgChecking; ?m] with ([MsgChecking] ++ [m]);
      rewrite app_assoc; apply last_snoc.
Qed.

(** A file that holds the array with the single item [accessToken] is
    taken for a credentials file. *)
Lemma install_validates_by_membership_witness :
  (exists disk',
     final (install sample_host disk_odd (Some (u "/srv/list.json")) false (Some (u "k")))
     = Returned disk') /\
  final (install sample_host disk_odd (Some (u "/srv/number.json")) false (Some (u "k")))
  = Exited 1 disk_odd.
Proof.
  assert (S : exists d, save_config sample_host disk_odd
                (gateway_config (u "/srv/list.json")
                   (stored_key sample_host (Some (u "k"))) 8000) = Ok d)
    by (eexists; vm_compute; reflexivity).
  destruct S as [d S]. split.
  - exists d.
    apply (proj1 (install_validates_by_membership sample_host disk_odd
                    (Some (u "/srv/list.json")) false (Some (u "k"))
                    (u "/srv/list.json") (js "['accessToken']")
                    (JArr [JStr (u "accessToken")])
                    ltac:(right; split; [reflexivity|]; eexists; repeat split; discriminate)
                    ltac:(vm_compute; reflexivity) ltac:(vm_compute; reflexivity))
             [JStr (u "accessToken")] d eq_refl);
      [left; left | exact S].
  - apply (proj2 (proj2 (install_validates_by_membership sample_host disk_odd
                    (Some (u "/srv/number.json")) false (Some (u "k"))
                    (u "/srv/number.json") (u "5") (JInt 5)
                    ltac:(right; split; [reflexivity|]; eexists; repeat split; discriminate)
                    ltac:(vm_compute; reflexivity) ltac:(vm_compute; reflexivity)))).
    reflexivity.
Defined.

Lemma install_returned_save (h : host) (disk disk' : filesystem)
    (credentials_file : option pystr) (ide : bool) (api_key : option pystr)
    (creds_path : pystr) :
  chooses h disk credentials_file ide creds_path ->
  final (install h disk credentials_file ide api_key) = Returned disk' ->
  validate_credentials disk creds_path = inr tt /\
  save_config h disk (gateway_config creds_path (stored_key h api_key) 8000) = Ok disk'.
Proof.
  intros Hch H. rewrite (install_chooses h disk _ _ api_key _ Hch) in H.
  apply install_with_returned in H as (Hv & Hs & _). split; assumption.
Qed.



Lemma save_config_keeps_nodes (h : host) (disk disk' : filesystem) (c : config) (p : pystr) :
  save_config h disk c = Ok disk' -> is_Some (disk !! p) -> is_Some (disk' !! p).
Proof.
  intros Hsave Hp. unfold save_config in Hsave.
  destruct (mkdir_p h disk (home h) (u ".kiro-proxy")) as [disk1|e] eqn:Em; [|discriminate].
  assert (H1 : is_Some (disk1 !! p)).
  { unfold mkdir_p in Em.
    destruct (disk !! joinpath (home h) (u ".kiro-proxy")) as [[m [t| |es]]|];
      try discriminate; [injection Em as <-; exact Hp|].
    destruct (disk !! home h) as [[m [t| |es]]|]; try discriminate;
      injection Em as <-; rewrite !lookup_insert_is_Some'; auto. }
  unfold write_text in Hsave.
  destruct (disk1 !! CONFIG_DIR h) as [[m [t| |es]]|]; try discriminate.
  destruct (disk1 !! joinpath (CONFIG_DIR h) (u "config.json")) as [[m' [t| |es']]|];
    try discriminate; (destruct (encodable (dumps c)); [|discriminate]);
    injection Hsave as <-; rewrite !lookup_insert_is_Some'; auto.
Qed.

(** X14.  [install] and [start] fit together: after a successful [install],
    [start] passes both of its checks and hands over to the server with the
    credentials path and the key [install] stored, on the port given on the
    command line if there is one other than 0, and on 8000 otherwise.
    (The path stored is the string of a path, so reading it back as a path
    gives the same string.) *)
Theorem install_then_start (h : host) (disk disk' : filesystem)
    (credentials_file : option pystr) (ide : bool) (api_key : option pystr)
    (creds_path : pystr) (port : option Z) :
  chooses h disk credentials_file ide creds_path ->
  final (install h disk credentials_file ide api_key) = Returned disk' ->
  creds_path <> [] -> path_of h creds_path = creds_path ->
  final (start h disk' port)
  = Handoff creds_path (stored_key h api_key)
      (JInt (match port with
             | Some n => if (n =? 0)%Z then 8000 else n
             | None => 8000
             end)).
Proof.
  intros Hch H Hne Hpath.
  destruct (install_returned_save h disk disk' _ _ _ _ Hch H) as [Hv Hs].
  destruct (save_then_load_core h disk _ _ _ disk' Hs) as [Hg _].
  destruct (validated_reads disk creds_path Hv) as [text Hr].
  assert (Hex : exists_ disk' creds_path = true).
  { unfold exists_. apply bool_decide_eq_true.
    apply (save_config_keeps_nodes h disk disk' _ _ Hs).
    unfold read_text in Hr. destruct (disk !! creds_path); [eauto | discriminate]. }
  unfold start. rewrite Hg. cbn [json_of_config gateway_config List.map fst snd json_of_pyval].
  change (dict_get (u "credentials_file") _) with (Some (JStr creds_path)).
  cbn [from_option truthy]. rewrite bool_decide_eq_false_2 by exact Hne.
  cbn [negb]. rewrite Hpath, Hex. cbn [negb].
  change (dict_get (u "api_key") _) with (Some (JStr (stored_key h api_key))).
  cbn [default from_option id final]. f_equal.
  unfold server_port.
  change (dict_get (u "port") _) with (Some (JInt 8000)).
  destruct port as [n|]; [destruct (n =? 0)%Z|]; reflexivity.
Qed.

Lemma install_then_start_witness :
  exists disk',
    final (install sample_host disk_fresh (Some (u "/srv/creds.json")) false
             (Some (u "mykey"))) = Returned disk' /\
    final (start sample_host disk' None)
    = Handoff (u "/srv/creds.json") (u "mykey") (JInt 8000) /\
    final (start sample_host disk' (Some 9001%Z))
    = Handoff (u "/srv/creds.json") (u "mykey") (JInt 9001).
Proof.
  assert (H : exists d, final (install sample_host disk_fresh
                (Some (u "/srv/creds.json")) false (Some (u "mykey"))) = Returned d)
    by (eexists; vm_compute; reflexivity).
  destruct H as [d H]. exists d. split; [exact H|].
  assert (Hch : chooses sample_host disk_fresh (Some (u "/srv/creds.json")) false
                  (u "/srv/creds.json"))
    by (right; split; [reflexivity|]; eexists; repeat split; discriminate).
  split.
  - apply (install_then_start sample_host disk_fresh d _ _ _ _ None Hch H);
      [discriminate | reflexivity].
  - apply (install_then_start sample_host disk_fresh d _ _ _ _ (Some 9001%Z) Hch H);
      [discriminate | reflexivity].
Defined.

Lemma cache_not_config (h : host) (p : pystr) :
  startswith (cache_dir h) p = true ->
  p <> CONFIG_FILE h /\ p <> CONFIG_DIR h /\ p <> home h.
Proof.
  intros H. apply startswith_spec in H as [t ->].
  unfold cache_dir, CONFIG_FILE, CONFIG_DIR, joinpath.
  rewrite <- !app_assoc. cbn [app].
  repeat split; intros E.
  - apply app_inv_head in E. vm_compute in E. discriminate.
  - apply app_inv_head in E. vm_compute in E. discriminate.
  - apply (f_equal length) in E. rewrite length_app in E. simpl in E. lia.
Qed.

Lemma save_agree_cache (h : host) (disk disk' : filesystem) (c : config) :
  save_config h disk c = Ok disk' -> agree_under (cache_dir h) disk disk'.
Proof.
  intros Hs p Hp. destruct (cache_not_config h p Hp) as (H1 & H2 & H3).
  apply (proj1 (save_frame h disk disk' c Hs)); assumption.
Qed.

Lemma find_under_cache (h : host) (disk : filesystem) (p : pystr) :
  find_kiro_ide_credentials h disk = Ok (Some p) -> startswith (cache_dir h) p = true.
Proof.
  intros H. apply find_origin in H as [-> | (_ & _ & n & _ & _ & _ & ->)];
    apply startswith_joinpath.
Qed.

(** X15.  Installing again with the same key changes nothing but the
    modification time of the configuration file: after a successful
    [install] with a key given, the same command run later on the
    resulting disk succeeds, shows the same lines, and leaves the text of
    the configuration file and every other path as they are.  (For a path
    given on the command line this supposes that it is not the
    configuration file itself.) *)
Theorem install_twice (h : host) (disk disk' : filesystem)
    (credentials_file : option pystr) (ide : bool) (key creds_path : pystr)
    (t : Z) (r : nat -> Byte.byte) :
  chooses h disk credentials_file ide creds_path ->
  final (install h disk credentials_file ide (Some key)) = Returned disk' ->
  key <> [] ->
  (ide = false -> creds_path <> CONFIG_FILE h) ->
  exists disk'',
    final (install (later h t r) disk' credentials_file ide (Some key)) = Returned disk'' /\
    shown (install (later h t r) disk' credentials_file ide (Some key))
    = shown (install h disk credentials_file ide (Some key)) /\
    read_text disk'' (CONFIG_FILE h) = read_text disk' (CONFIG_FILE h) /\
    (forall p, p <> CONFIG_FILE h -> disk'' !! p = disk' !! p).
Proof.
  intros Hch H Hkey Hne0.
  destruct (install_returned_save h disk disk' _ _ _ _ Hch H) as [Hv Hs].
  destruct (validated_reads disk creds_path Hv) as [text Hr].
  assert (Hne : creds_path <> CONFIG_FILE h).
  { destruct Hch as [[-> Hf] | [Hi _]]; [|apply Hne0, Hi].
    apply (cache_not_config h creds_path (find_under_cache h disk _ Hf)). }
  pose proof (save_config_keeps_text h disk disk' _ _ text Hs Hr Hne) as Hsame.
  assert (Hch' : chooses (later h t r) disk' credentials_file ide creds_path).
  { destruct Hch as [[-> Hf] | Hch]; [|right; exact Hch].
    left. split; [reflexivity|].
    change (find_kiro_ide_credentials (later h t r) disk')
      with (find_kiro_ide_credentials h disk').
    rewrite (find_agree h disk disk' (save_agree_cache h disk disk' _ Hs)). exact Hf. }
  destruct key as [|c k]; [congruence|].
  cbn [stored_key] in Hs.
  pose proof (save_config_later h disk disk' _ t r Hs) as Hs'.
  pose proof (save_config_Ok h disk disk' _ Hs) as [Hread _].
  eexists.
  rewrite (install_chooses (later h t r) disk' _ _ (@Some pystr (c :: k)) _ Hch'),
          (install_chooses h disk _ _ (@Some pystr (c :: k)) _ Hch).
  unfold install_with.
  rewrite (validate_credentials_ext disk disk' creds_path Hsame), Hv.
  rewrite bool_decide_eq_false_2 by discriminate.
  change (install_config ?p ?q) with (gateway_config p q 8000).
  cbn [default from_option id]. rewrite Hs, Hs'. cbn [final shown].
  split; [reflexivity|]. split; [reflexivity|]. split.
  - unfold read_text at 1. rewrite lookup_insert_eq. symmetry. exact Hread.
  - intros p Hp. apply lookup_insert_ne. congruence.
Qed.

Lemma install_twice_witness :
  exists disk' disk'',
    final (install sample_host disk_fresh (Some (u "/srv/creds.json")) false
             (Some (u "mykey"))) = Returned disk' /\
    final (install (later sample_host 1700000600 (fun _ => Byte.x2a)) disk'
             (Some (u "/srv/creds.json")) false (Some (u "mykey"))) = Returned disk'' /\
    read_text disk'' (CONFIG_FILE sample_host) = read_text disk' (CONFIG_FILE sample_host).
Proof.
  assert (H : exists d, final (install sample_host disk_fresh
                (Some (u "/srv/creds.json")) false (Some (u "mykey"))) = Returned d)
    by (eexists; vm_compute; reflexivity).
  destruct H as [d H]. exists d.
  destruct (install_twice sample_host disk_fresh d _ _ (u "mykey") (u "/srv/creds.json")
              1700000600 (fun _ => Byte.x2a)
              ltac:(right; split; [reflexivity|]; eexists; repeat split; discriminate) H
              ltac:(discriminate) ltac:(intros _; vm_compute; discriminate))
    as (d2 & H2 & _ & Hr & _).
  exists d2. repeat split; assumption.
Defined.

(** ** [start] and [status] on what the configuration file may hold *)

(** X16.  [start] trusts the shape of the configuration.  When the file
    decodes to a value that is not an object the command ends with an
    uncaught [AttributeError]; when the [credentials_file] entry is true in
    Python's sense but not a string, or when both checks pass and the
    [api_key] entry is not a string, it ends with an uncaught
    [TypeError].  None of the two diagnostics is shown. *)
Theorem start_on_malformed_config (h : host) (disk : filesystem) (port : option Z) :
  (is_object (get_config h disk) = false ->
   start h disk port = {| shown := []; final := Uncaught AttributeError |}) /\
  (forall d w, get_config h disk = JObj d ->
     dict_get (u "credentials_file") d = Some w ->
     truthy h w = true -> is_string w = false ->
     start h disk port = {| shown := []; final := Uncaught TypeError |}) /\
  (forall d s k, get_config h disk = JObj d ->
     dict_get (u "credentials_file") d = Some (JStr s) -> s <> [] ->
     exists_ disk (path_of h s) = true ->
     dict_get (u "api_key") d = Some k -> is_string k = false ->
     start h disk port = {| shown := []; final := Uncaught TypeError |}).
Proof.
  unfold start. split; [|split].
  - destruct (get_config h disk); try discriminate; reflexivity.
  - intros d w -> -> Ht Hs. cbn [from_option]. rewrite Ht. cbn [negb].
    destruct w; try discriminate; reflexivity.
  - intros d s k -> -> Hne Hex -> Hk. cbn [from_option truthy].
    rewrite bool_decide_eq_false_2 by exact Hne. cbn [negb]. rewrite Hex. cbn [negb].
    destruct k; try discriminate; reflexivity.
Qed.

Lemma start_on_malformed_config_witness :
  start sample_host disk_config_array None
  = {| shown := []; final := Uncaught AttributeError |} /\
  start sample_host disk_config_empty_array None
  = {| shown := []; final := Uncaught AttributeError |} /\
  start sample_host disk_config_number None
  = {| shown := []; final := Uncaught TypeError |}.
Proof.
  split; [|split].
  - apply (proj1 (start_on_malformed_config sample_host disk_config_array None)).
    vm_compute. reflexivity.
  - apply (proj1 (start_on_malformed_config sample_host disk_config_empty_array None)).
    vm_compute. reflexivity.
  - apply (proj1 (proj2 (start_on_malformed_config sample_host disk_config_number None))
             [(u "credentials_file", JInt 5)] (JInt 5)); vm_compute; reflexivity.
Defined.



(** X18.  [install] and [status] fit together: after a successful
    [install], [status] reports the credentials path as found, together
    with the key [install] stored and the port 8000. *)
Theorem install_then_status (h : host) (disk disk' : filesystem)
    (credentials_file : option pystr) (ide : bool) (api_key : option pystr)
    (creds_path : pystr) :
  chooses h disk credentials_file ide creds_path ->
  final (install h disk credentials_file ide api_key) = Returned disk' ->
  path_of h creds_path = creds_path -> creds_path <> u "Not set" ->
  status h disk'
  = Configuration creds_path true (JStr (stored_key h api_key)) (JInt 8000).
Proof.
  intros Hch H Hpath Hns.
  destruct (install_returned_save h disk disk' _ _ _ _ Hch H) as [Hv Hs].
  destruct (save_then_load_core h disk _ _ _ disk' Hs) as [Hg _].
  destruct (validated_reads disk creds_path Hv) as [text Hr].
  assert (Hex : exists_ disk' creds_path = true).
  { unfold exists_. apply bool_decide_eq_true.
    apply (save_config_keeps_nodes h disk disk' _ _ Hs).
    unfold read_text in Hr. destruct (disk !! creds_path); [eauto | discriminate]. }
  unfold status. rewrite Hg.
  cbn [json_of_config gateway_config List.map fst snd json_of_pyval truthy].
  rewrite bool_decide_eq_false_2 by discriminate. cbn [negb].
  change (dict_get (u "credentials_file") _) with (Some (JStr creds_path)).
  change (dict_get (u "api_key") _) with (Some (JStr (stored_key h api_key))).
  change (dict_get (u "port") _) with (Some (JInt 8000)).
  cbn [default from_option id]. unfold pystr_eqb.
  rewrite bool_decide_eq_false_2 by exact Hns. cbn [negb]. rewrite Hpath, Hex.
  reflexivity.
Qed.

Lemma install_then_status_witness :
  exists disk',
    final (install sample_host disk_fresh (Some (u "/srv/creds.json")) false
             (Some (u "mykey"))) = Returned disk' /\
    status sample_host disk'
    = Configuration (u "/srv/creds.json") true (JStr (u "mykey")) (JInt 8000).
Proof.
  assert (H : exists d, final (install sample_host disk_fresh
                (Some (u "/srv/creds.json")) false (Some (u "mykey"))) = Returned d)
    by (eexists; vm_compute; reflexivity).
  destruct H as [d H]. exists d. split; [exact H|].
  apply (install_then_status sample_host disk_fresh d _ _ _ (u "/srv/creds.json")
           ltac:(right; split; [reflexivity|]; eexists; repeat split; discriminate) H);
    [reflexivity | vm_compute; discriminate].
Defined.

Lemma get_config_delete (h : host) (disk : filesystem) (p : pystr) :
  p <> CONFIG_FILE h -> get_config h (delete p disk) = get_config h disk.
Proof.
  intros Hp. unfold get_config, exists_, read_text.
  rewrite lookup_delete_ne by exact Hp. reflexivity.
Qed.

(** X19.  [status] follows the disk, not the moment of [install]: when it
    reports the credentials file as found and that file is then deleted,
    it reports the same path, key and port with the file not found, and
    [start] ends with status 1 after the file-not-found and reconfigure
    lines. *)
Theorem status_follows_disk (h : host) (disk : filesystem) (s : pystr) (k port : json) :
  status h disk = Configuration s true k port ->
  path_of h s <> CONFIG_FILE h ->
  status h (delete (path_of h s) disk) = Configuration s false k port /\
  (s <> [] -> forall p,
     start h (delete (path_of h s) disk) p
     = {| shown := [MsgCredsNotFound (path_of h s); MsgReconfigure];
          final := Exited 1 (delete (path_of h s) disk) |}).
Proof.
  intros Hst Hne.
  assert (Hgone : exists_ (delete (path_of h s) disk) (path_of h s) = false).
  { unfold exists_. apply bool_decide_eq_false. rewrite lookup_delete_eq.
    intros [? ?]. discriminate. }
  unfold status, start in *. rewrite (get_config_delete h disk _ Hne).
  destruct (negb (truthy h (get_config h disk))); [discriminate|].
  destruct (get_config h disk) as [| | | | | |d]; try discriminate.
  destruct (dict_get (u "credentials_file") d) as [w|] eqn:Ew.
  - cbn [default from_option id] in Hst. destruct w as [| | | |s0| |]; try discriminate.
    injection Hst as -> Hfound <- <-.
    destruct (negb (pystr_eqb s (u "Not set"))) eqn:Ens; [|discriminate].
    split.
    + cbn [default from_option id]. rewrite Ens, Hgone. reflexivity.
    + intros Hs p. cbn [from_option truthy].
      rewrite bool_decide_eq_false_2 by exact Hs. cbn [negb]. rewrite Hgone. reflexivity.
  - cbn [default from_option id] in Hst. injection Hst as <- Hfound _ _.
    change (negb (pystr_eqb (u "Not set") (u "Not set"))) with false in Hfound.
    discriminate.
Qed.

Lemma status_follows_disk_witness :
  status sample_host disk_configured
  = Configuration (u "/srv/creds.json") true (JStr (u "old")) (JInt 9000) /\
  status sample_host (delete (u "/srv/creds.json") disk_configured)
  = Configuration (u "/srv/creds.json") false (JStr (u "old")) (JInt 9000).
Proof.
  assert (H : status sample_host disk_configured
              = Configuration (u "/srv/creds.json") true (JStr (u "old")) (JInt 9000))
    by (vm_compute; reflexivity).
  split; [exact H|].
  apply (proj1 (status_follows_disk sample_host disk_configured _ _ _ H
                  ltac:(vm_compute; discriminate))).
Defined.



(** ** [init] *)

(** [start] ends in one of three ways, and never touches the disk. *)
Lemma start_final (h : host) (disk : filesystem) (port : option Z) :
  (exists creds key p, final (start h disk port) = Handoff creds key p) \/
  (exists e, final (start h disk port) = Uncaught e) \/
  final (start h disk port) = Exited 1 disk.
Proof.
  unfold start.
  repeat match goal with
  | |- context [match ?x with _ => _ end] => destruct x
  end; cbn [final]; eauto 8.
Qed.

Lemma ask_choice_again (a : pystr) (answers : list pystr) :
  a <> [] -> is_choice a = false ->
  ask_choice (a :: answers)
  = (WPleaseEnter :: fst (ask_choice answers), snd (ask_choice answers)).
Proof.
  intros Ha Hc. destruct a as [|c a]; [congruence|].
  cbn [ask_choice]. rewrite Hc. destruct (ask_choice answers). reflexivity.
Qed.

(** The lines [ask_choice] shows are all the same, and the answers it
    leaves are among those it was given. *)
Lemma ask_choice_Some (answers : list pystr) (lines : list wizard_message)
    (choice : pystr) (rest : list pystr) :
  ask_choice answers = (lines, Some (choice, rest)) ->
  Forall (fun m => m = WPleaseEnter) lines /\ incl rest answers /\ is_choice choice = true.
Proof.
  revert lines. induction answers as [|a answers IH]; intros lines; cbn [ask_choice];
    [discriminate|].
  match goal with
  | |- (if is_choice ?c then _ else _) = _ -> _ => destruct (is_choice c) eqn:Hc
  end.
  - intros [= <- <- <-]. split; [constructor|]. split; [apply incl_tl, incl_refl | exact Hc].
  - destruct (ask_choice answers) as [l r]. intros [= <- ->].
    destruct (IH l eq_refl) as (H1 & H2 & H3).
    split; [constructor; [reflexivity | exact H1]|]. split; [apply incl_tl, H2 | exact H3].
Qed.

Lemma ask_choice_None (answers : list pystr) (lines : list wizard_message) :
  ask_choice answers = (lines, None) -> Forall (fun m => m = WPleaseEnter) lines.
Proof.
  revert lines. induction answers as [|a answers IH]; intros lines; cbn [ask_choice].
  - intros [= <-]. constructor.
  - destruct (is_choice _); [discriminate|].
    destruct (ask_choice answers) as [l r]. intros [= <- ->].
    constructor; [reflexivity | apply IH; reflexivity].
Qed.

Lemma prompt_required_Some (answers : list pystr) (typed : pystr) (rest : list pystr) :
  prompt_required answers = Some (typed, rest) ->
  typed <> [] /\ In typed answers /\ incl rest answers.
Proof.
  induction answers as [|a answers IH]; cbn [prompt_required]; [discriminate|].
  destruct a as [|c a].
  - intros H. destruct (IH H) as (H1 & H2 & H3).
    split; [exact H1|]. split; [right; exact H2 | apply incl_tl, H3].
  - intros [= <- <-]. split; [discriminate|]. split; [left; reflexivity|].
    apply incl_tl, incl_refl.
Qed.

Lemma please_enter_not_saved (lines : list wizard_message) :
  Forall (fun m => m = WPleaseEnter) lines -> ~ In WConfigurationSaved lines.
Proof.
  induction 1 as [|m l Hm _ IH]; [intros []|].
  intros [E|E]; [congruence | exact (IH E)].
Qed.

(** Lines shown before a step stay in front of what the step shows. *)
Lemma init_finish_cons (t : terminal) (h : host) (disk : filesystem)
    (x : wizard_message) (lines : list wizard_message) (creds : pystr)
    (answers : list pystr) :
  said (init_finish t h disk (x :: lines) creds answers)
  = x :: said (init_finish t h disk lines creds answers) /\
  ended (init_finish t h disk (x :: lines) creds answers)
  = ended (init_finish t h disk lines creds answers).
Proof.
  unfold init_finish, aborted.
  repeat match goal with
  | |- context [match ?x with _ => _ end] => destruct x
  end; cbn [said ended app]; split; reflexivity.
Qed.

Lemma init_manual_cons (t : terminal) (h : host) (disk : filesystem)
    (x : wizard_message) (lines : list wizard_message) (answers : list pystr) :
  said (init_manual t h disk (x :: lines) answers)
  = x :: said (init_manual t h disk lines answers) /\
  ended (init_manual t h disk (x :: lines) answers)
  = ended (init_manual t h disk lines answers).
Proof.
  unfold init_manual, aborted.
  repeat match goal with
  | |- context [init_finish ?t ?h ?d ((?x :: ?l) ++ ?m) ?c ?a] =>
      change ((x :: l) ++ m) with (x :: (l ++ m));
      destruct (init_finish_cons t h d x (l ++ m) c a) as [-> ->]
  | |- context [match ?x with _ => _ end] => destruct x
  end; cbn [said ended app]; split; reflexivity.
Qed.

Lemma init_again (t : terminal) (h : host) (disk : filesystem)
    (a : pystr) (answers : list pystr) :
  a <> [] -> is_choice a = false ->
  said (init t h disk (a :: answers)) = WPleaseEnter :: said (init t h disk answers) /\
  ended (init t h disk (a :: answers)) = ended (init t h disk answers).
Proof.
  intros Ha Hc. unfold init. rewrite (ask_choice_again a answers Ha Hc).
  destruct (ask_choice answers) as [lines [[choice rest]|]]; cbn [fst snd].
  - destruct (pystr_eqb choice (u "1")).
    + destruct (find_kiro_ide_credentials h disk) as [[p|]|e];
        cbn [said ended app]; try (split; reflexivity).
      change ((WPleaseEnter :: lines) ++ ?m) with (WPleaseEnter :: (lines ++ m)).
      apply init_finish_cons.
    + destruct (pystr_eqb choice (u "2")); [split; reflexivity|].
      apply init_manual_cons.
  - split; reflexivity.
Qed.

(** X21.  Answers to the choice prompt other than 1, 2, 3 and the empty
    line change nothing but the display: each adds one line asking again,
    and the wizard then runs on the remaining answers as if they were the
    only ones. *)
Theorem init_asks_again (t : terminal) (h : host) (disk : filesystem)
    (bad answers : list pystr) :
  Forall (fun a => a <> [] /\ is_choice a = false) bad ->
  said (init t h disk (bad ++ answers))
  = repeat WPleaseEnter (length bad) ++ said (init t h disk answers) /\
  ended (init t h disk (bad ++ answers)) = ended (init t h disk answers).
Proof.
  induction 1 as [|a bad [Ha Hc] _ [IH1 IH2]]; [split; reflexivity|].
  cbn [app length repeat].
  destruct (init_again t h disk a (bad ++ answers) Ha Hc) as [E1 E2]. split.
  - etransitivity; [exact E1|]. f_equal. exact IH1.
  - etransitivity; [exact E2 | exact IH2].
Qed.

Lemma init_asks_again_witness :
  said (init sample_terminal sample_host disk_fresh [u "4"; u "one"; u " 1"; u "2"])
  = [WPleaseEnter; WPleaseEnter; WPleaseEnter; WKiroCliUnavailable] /\
  ended (init sample_terminal sample_host disk_fresh [u "4"; u "one"; u " 1"; u "2"])
  = Exited 1 disk_fresh.
Proof.
  destruct (init_asks_again sample_terminal sample_host disk_fresh
              [u "4"; u "one"; u " 1"] [u "2"]
              ltac:(repeat constructor; (discriminate || (vm_compute; reflexivity))))
    as [Hs He].
  split; [etransitivity; [exact Hs|] | etransitivity; [exact He|]];
    vm_compute; reflexivity.
Defined.

Lemma prompt_default_Some (d : pystr) (answers : list pystr) (a : pystr)
    (rest : list pystr) :
  prompt_default d answers = Some (a, rest) -> In a (d :: answers) /\ incl rest answers.
Proof.
  destruct answers as [|x answers]; cbn [prompt_default]; [discriminate|].
  intros [= <- <-]. split; [|apply incl_tl, incl_refl].
  destruct x; [left | right; left]; reflexivity.
Qed.

(** The last step of the wizard: it is aborted at the port prompt, or the
    save raises, or the save returns and the offer to start decides how
    the command ends. *)
Lemma init_finish_cases (t : terminal) (h : host) (disk : filesystem)
    (lines : list wizard_message) (creds : pystr) (answers : list pystr) :
  (said (init_finish t h disk lines creds answers) = lines ++ [WAborted] /\
   ended (init_finish t h disk lines creds answers) = Exited 1 disk) \/
  exists a, In a (u "8000" :: answers) /\
    ((exists e,
        said (init_finish t h disk lines creds answers)
        = lines ++ [Said (MsgGeneratedKey (token_urlsafe (token_bytes h 16)))] /\
        ended (init_finish t h disk lines creds answers) = Uncaught e) \/
     (exists disk' tail,
        save_config h disk (wizard_config t h creds a) = Ok disk' /\
        said (init_finish t h disk lines creds answers)
        = lines ++ [Said (MsgGeneratedKey (token_urlsafe (token_bytes h 16)));
                    WConfigurationSaved] ++ tail /\
        (ended (init_finish t h disk lines creds answers) = Returned disk' \/
         ended (init_finish t h disk lines creds answers) = Exited 1 disk' \/
         ended (init_finish t h disk lines creds answers)
         = final (start h disk' (Some (default 8000%Z (to_int t a))))))).
Proof.
  unfold init_finish.
  destruct (prompt_default (u "8000") answers) as [[a rest]|] eqn:Ep;
    [|left; split; reflexivity].
  right. exists a. split; [apply (prompt_default_Some _ _ _ _ Ep)|].
  unfold wizard_config, gateway_config.
  destruct (save_config h disk _) as [disk'|e].
  - right. exists disk'.
    destruct (confirm true rest) as [[[|] r]|]; eexists; (split; [reflexivity|]);
      cbn [said ended aborted]; rewrite <- ?app_assoc; cbn [app].
    + split; [reflexivity|]. right. right. reflexivity.
    + split; [instantiate (1 := []); reflexivity|]. left. reflexivity.
    + split; [reflexivity|]. right. left. reflexivity.
  - left. exists e. split; reflexivity.
Qed.

Lemma init_finish_prefix (t : terminal) (h : host) (disk : filesystem)
    (lines : list wizard_message) (creds : pystr) (answers : list pystr)
    (x : wizard_message) :
  In x lines -> In x (said (init_finish t h disk lines creds answers)).
Proof.
  intros Hx.
  destruct (init_finish_cases t h disk lines creds answers)
    as [[-> _] | (a & _ & [(e & -> & _) | (d & tail & _ & -> & _)])];
    apply in_or_app; left; exact Hx.
Qed.

(** How the wizard gets to its last step: with a credentials path that
    exists, after lines that do not announce a save; otherwise it ends
    with status 1 or an exception, the disk as it was. *)
Lemma init_cases (t : terminal) (h : host) (disk : filesystem) (answers : list pystr) :
  (exists lines creds rest,
     init t h disk answers = init_finish t h disk lines creds rest /\
     exists_ disk creds = true /\ incl rest answers /\
     ~ In WConfigurationSaved lines) \/
  ((ended (init t h disk answers) = Exited 1 disk \/
    exists e, ended (init t h disk answers) = Uncaught e) /\
   ~ In WConfigurationSaved (said (init t h disk answers))).
Proof.
  assert (Hadd : forall lines more,
            ~ In WConfigurationSaved lines -> ~ In WConfigurationSaved more ->
            ~ In WConfigurationSaved (lines ++ more)).
  { intros lines more H1 H2 Hin. apply in_app_or in Hin as [Hin|Hin]; tauto. }
  unfold init.
  destruct (ask_choice answers) as [lines [[choice rest]|]] eqn:Ea.
  - apply ask_choice_Some in Ea as (Hl & Hr & _).
    pose proof (please_enter_not_saved _ Hl) as Hn.
    destruct (pystr_eqb choice (u "1")).
    + destruct (find_kiro_ide_credentials h disk) as [[p|]|e] eqn:Ef.
      * left. exists (lines ++ [Said MsgSearching; Said (MsgFound p)]), p, rest.
        split; [reflexivity|]. split.
        { unfold exists_. apply bool_decide_eq_true, has_marker_exists.
          apply (find_returns_marked h disk p Ef). }
        split; [exact Hr|]. apply Hadd; [exact Hn|].
        intros [E|[E|[]]]; discriminate.
      * right. cbn [said ended]. split; [left; reflexivity|].
        apply Hadd; [exact Hn|]. intros [E|[E|[]]]; discriminate.
      * right. cbn [said ended]. split; [right; eexists; reflexivity|].
        apply Hadd; [exact Hn|]. intros [E|[]]; discriminate.
    + destruct (pystr_eqb choice (u "2")).
      { right. cbn [said ended]. split; [left; reflexivity|].
        apply Hadd; [exact Hn|]. intros [E|[]]; discriminate. }
      unfold init_manual.
      destruct (prompt_required rest) as [[typed rest']|] eqn:Ep.
      2:{ right. cbn [said ended aborted]. split; [left; reflexivity|].
          apply Hadd; [exact Hn|]. intros [E|[]]; discriminate. }
      apply prompt_required_Some in Ep as (_ & _ & Hr').
      assert (Hinc : incl rest' answers) by (intros x Hx; apply Hr, Hr', Hx).
      assert (Hv : ~ In WConfigurationSaved (lines ++ [WValid])).
      { apply Hadd; [exact Hn|]. intros [E|[]]; discriminate. }
      destruct (exists_ disk (resolve h (expanduser t typed))) eqn:Ex; cbn [negb].
      2:{ right. cbn [said ended]. split; [left; reflexivity|].
          apply Hadd; [exact Hn|]. intros [E|[]]; discriminate. }
      destruct (read_text disk _) as [text|e].
      2:{ right. cbn [said ended]. split; [right; eexists; reflexivity | exact Hn]. }
      destruct (loads text) as [creds|].
      2:{ right. cbn [said ended]. split; [left; reflexivity|].
          apply Hadd; [exact Hn|]. intros [E|[]]; discriminate. }
      destruct (py_in (u "accessToken") creds) as [[|]|e].
      * left. eexists _, _, _. split; [reflexivity|]. repeat split; assumption.
      * destruct (py_in (u "refreshToken") creds) as [[|]|e].
        -- left. eexists _, _, _. split; [reflexivity|]. repeat split; assumption.
        -- right. cbn [said ended]. split; [left; reflexivity|].
           apply Hadd; [exact Hn|]. intros [E|[]]; discriminate.
        -- right. cbn [said ended]. split; [right; eexists; reflexivity | exact Hn].
      * right. cbn [said ended]. split; [right; eexists; reflexivity | exact Hn].
  - right. cbn [said ended aborted]. split; [left; reflexivity|].
    apply Hadd; [exact (please_enter_not_saved _ (ask_choice_None _ _ Ea))|].
    intros [E|[]]; discriminate.
Qed.

(** Every run of the wizard: nothing is saved and the disk is as it was,
    or one configuration is saved, for a credentials path that exists. *)
Lemma init_outcomes (t : terminal) (h : host) (disk : filesystem) (answers : list pystr) :
  ((ended (init t h disk answers) = Exited 1 disk \/
    exists e, ended (init t h disk answers) = Uncaught e) /\
   ~ In WConfigurationSaved (said (init t h disk answers))) \/
  exists creds a disk',
    In a (u "8000" :: answers) /\ exists_ disk creds = true /\
    save_config h disk (wizard_config t h creds a) = Ok disk' /\
    In WConfigurationSaved (said (init t h disk answers)) /\
    (ended (init t h disk answers) = Returned disk' \/
     ended (init t h disk answers) = Exited 1 disk' \/
     ended (init t h disk answers)
     = final (start h disk' (Some (default 8000%Z (to_int t a))))).
Proof.
  destruct (init_cases t h disk answers)
    as [(lines & creds & rest & -> & Hex & Hinc & Hn) | H]; [|left; exact H].
  destruct (init_finish_cases t h disk lines creds rest)
    as [[Hs He] | (a & Ha & [(e & Hs & He) | (d & tail & Hsave & Hs & He)])].
  - left. split; [left; exact He|]. rewrite Hs. intros Hin.
    apply in_app_or in Hin as [Hin|[E|[]]]; [exact (Hn Hin) | discriminate].
  - left. split; [right; exists e; exact He|]. rewrite Hs. intros Hin.
    apply in_app_or in Hin as [Hin|[E|[]]]; [exact (Hn Hin) | discriminate].
  - right. exists creds, a, d. split.
    { destruct Ha as [Ha|Ha]; [left; exact Ha | right; apply Hinc, Ha]. }
    split; [exact Hex|]. split; [exact Hsave|]. split; [|exact He].
    rewrite Hs. apply in_or_app. right. right. left. reflexivity.
Qed.



(** X23.  The wizard exits with status 1 only, and until it has shown
    that the configuration is saved it has written nothing: an exit
    without that line leaves the disk as it was. *)
Theorem init_exits (t : terminal) (h : host) (disk d : filesystem)
    (answers : list pystr) (n : Z) :
  ended (init t h disk answers) = Exited n d ->
  n = 1%Z /\ (~ In WConfigurationSaved (said (init t h disk answers)) -> d = disk).
Proof.
  intros H.
  destruct (init_outcomes t h disk answers)
    as [[[E|[e E]] _] | (creds & a & d' & _ & _ & _ & Hin & [E|[E|E]])];
    rewrite E in H; try discriminate.
  - injection H as <- <-. split; [reflexivity | intros _; reflexivity].
  - injection H as <- <-. split; [reflexivity | intros Hn; destruct (Hn Hin)].
  - destruct (start_final h d' (Some (default 8000%Z (to_int t a))))
      as [(c & k & p & F) | [(e & F) | F]]; rewrite F in H; try discriminate.
    injection H as <- <-. split; [reflexivity | intros Hn; destruct (Hn Hin)].
Qed.

(** End of input at the path prompt. *)
Lemma init_exits_witness :
  ended (init sample_terminal sample_host disk_fresh [u "3"; []; []]) = Exited 1 disk_fresh.
Proof.
  assert (H : exists n d, ended (init sample_terminal sample_host disk_fresh [u "3"; []; []])
                          = Exited n d)
    by (eexists _, _; vm_compute; reflexivity).
  destruct H as (n & d & H).
  destruct (init_exits sample_terminal sample_host disk_fresh d _ n H) as [-> Hd].
  rewrite H. f_equal. apply Hd. vm_compute. intros [E|[]]. discriminate.
Defined.



Lemma ask_choice_valid (a : pystr) (answers : list pystr) :
  a <> [] -> is_choice a = true -> ask_choice (a :: answers) = ([], Some (a, answers)).
Proof.
  intros Ha Hc. destruct a as [|c a]; [congruence|].
  cbn [ask_choice]. rewrite Hc. reflexivity.
Qed.

Lemma confirm_n (d : bool) (answers : list pystr) :
  confirm d (u "n" :: answers) = Some (false, answers).
Proof. vm_compute. reflexivity. Qed.

(** X25.  The first choice of the wizard does not validate what the
    locator found.  On a disk where [install --ide] refuses the file the
    locator returns (it is not JSON, or holds the marker but neither
    key), the wizard stores the path of that very file: answering 1, any
    port line and n returns with the configuration saved. *)
Theorem init_ide_skips_validation (t : terminal) (h : host) (disk disk' : filesystem)
    (p a : pystr) (m : message) (rest : list pystr) :
  find_kiro_ide_credentials h disk = Ok (Some p) ->
  validate_credentials disk p = inl m ->
  save_config h disk
    (wizard_config t h p match a with [] => u "8000" | _ :: _ => a end) = Ok disk' ->
  (forall credentials_file api_key,
     final (install h disk credentials_file true api_key) = Exited 1 disk) /\
  ended (init t h disk (u "1" :: a :: u "n" :: rest)) = Returned disk'.
Proof.
  intros Hfind Hval Hsave. split.
  - intros credentials_file api_key. unfold install. rewrite Hfind.
    unfold install_with. rewrite Hval. reflexivity.
  - unfold init.
    rewrite (ask_choice_valid (u "1") _ ltac:(discriminate) ltac:(vm_compute; reflexivity)).
    replace (pystr_eqb (u "1") (u "1")) with true by (vm_compute; reflexivity).
    rewrite Hfind. unfold init_finish. cbn [prompt_default].
    unfold wizard_config, gateway_config in Hsave. rewrite Hsave.
    rewrite confirm_n. reflexivity.
Qed.

Lemma init_ide_skips_validation_witness :
  exists disk',
    final (install sample_host disk_cache None true None) = Exited 1 disk_cache /\
    ended (init sample_terminal sample_host disk_cache [u "1"; []; u "n"])
    = Returned disk' /\
    get_config sample_host disk'
    = JObj [(u "credentials_file", JStr (u "/home/op/.aws/sso/cache/b.json"));
            (u "api_key", JStr (u "AxQlNkdYaXqLnK2-z-DxAA"));
            (u "port", JInt 8000)].
Proof.
  assert (H : exists d, save_config sample_host disk_cache
                (wizard_config sample_terminal sample_host
                   (u "/home/op/.aws/sso/cache/b.json") (u "8000")) = Ok d)
    by (eexists; vm_compute; reflexivity).
  destruct H as [d H]. exists d.
  destruct (init_ide_skips_validation sample_terminal sample_host disk_cache d
              (u "/home/op/.aws/sso/cache/b.json") []
              (MsgInvalidJSON (u "/home/op/.aws/sso/cache/b.json")) []
              ltac:(vm_compute; reflexivity) ltac:(vm_compute; reflexivity) H)
    as [H1 H2].
  split; [apply H1|]. split; [exact H2|].
  destruct (save_then_load_core sample_host disk_cache _ _ _ d H) as [Hg _].
  rewrite Hg. vm_compute. reflexivity.
Defined.

Lemma init_manual_step (t : terminal) (h : host) (disk : filesystem)
    (typed : pystr) (rest : list pystr) :
  typed <> [] ->
  init t h disk (u "3" :: typed :: rest)
  = let file_path := resolve h (expanduser t typed) in
    if negb (exists_ disk file_path) then
      {| said := [WFileNotFound file_path]; ended := Exited 1 disk |}
    else
      match read_text disk file_path with
      | Raise e => {| said := []; ended := Uncaught e |}
      | Ok text =>
          match loads text with
          | None => {| said := [WInvalidJSON]; ended := Exited 1 disk |}
          | Some creds =>
              match py_in (u "accessToken") creds with
              | Raise e => {| said := []; ended := Uncaught e |}
              | Ok true => init_finish t h disk [WValid] file_path rest
              | Ok false =>
                  match py_in (u "refreshToken") creds with
                  | Raise e => {| said := []; ended := Uncaught e |}
                  | Ok true => init_finish t h disk [WValid] file_path rest
                  | Ok false =>
                      {| said := [Said MsgMissingTokens]; ended := Exited 1 disk |}
                  end
              end
          end
      end.
Proof.
  intros Ht. unfold init.
  rewrite (ask_choice_valid (u "3") _ ltac:(discriminate) ltac:(vm_compute; reflexivity)).
  replace (pystr_eqb (u "3") (u "1")) with false by (vm_compute; reflexivity).
  replace (pystr_eqb (u "3") (u "2")) with false by (vm_compute; reflexivity).
  unfold init_manual. destruct typed as [|c typed]; [congruence|].
  cbn [prompt_required app]. reflexivity.
Qed.

(** X26.  What the third choice lets through.  A path that does not exist,
    a file that is not JSON and a file without either key end the wizard
    with status 1 and a message; but a directory, a file that is not
    UTF-8 text and a JSON number, boolean or null end it with an uncaught
    exception, where [install] reports an error reading the file. *)
Theorem init_manual_failures (t : terminal) (h : host) (disk : filesystem)
    (typed : pystr) (rest : list pystr) :
  typed <> [] ->
  (disk !! resolve h (expanduser t typed) = None ->
   init t h disk (u "3" :: typed :: rest)
   = {| said := [WFileNotFound (resolve h (expanduser t typed))];
        ended := Exited 1 disk |}) /\
  (forall e, is_Some (disk !! resolve h (expanduser t typed)) ->
     read_text disk (resolve h (expanduser t typed)) = Raise e ->
     init t h disk (u "3" :: typed :: rest) = {| said := []; ended := Uncaught e |} /\
     (e = IsADirectoryError \/ e = UnicodeDecodeError) /\
     validate_credentials disk (resolve h (expanduser t typed)) = inl (MsgErrorReading e)) /\
  (forall text, read_text disk (resolve h (expanduser t typed)) = Ok text ->
     loads text = None ->
     init t h disk (u "3" :: typed :: rest)
     = {| said := [WInvalidJSON]; ended := Exited 1 disk |}) /\
  (forall text v, read_text disk (resolve h (expanduser t typed)) = Ok text ->
     loads text = Some v -> is_scalar v = true ->
     init t h disk (u "3" :: typed :: rest)
     = {| said := []; ended := Uncaught TypeError |} /\
     validate_credentials disk (resolve h (expanduser t typed))
     = inl (MsgErrorReading TypeError)).
Proof.
  intros Ht. rewrite (init_manual_step t h disk typed rest Ht). cbv zeta.
  unfold validate_credentials, exists_.
  split; [|split; [|split]].
  - intros Hn. rewrite bool_decide_eq_false_2; [reflexivity|].
    rewrite Hn. intros [? ?]. discriminate.
  - intros e Hs Hr. rewrite bool_decide_eq_true_2 by exact Hs. rewrite Hr.
    split; [reflexivity|]. split; [|reflexivity].
    unfold read_text in Hr. destruct Hs as [[m [tx| |es]] Hs]; rewrite Hs in Hr;
      try discriminate; injection Hr as <-; auto.
  - intros text Hr Hl. rewrite bool_decide_eq_true_2.
    + rewrite Hr, Hl. reflexivity.
    + unfold read_text in Hr. destruct (disk !! _); [eauto | discriminate].
  - intros text v Hr Hl Hv. rewrite bool_decide_eq_true_2.
    + rewrite Hr, Hl. destruct v; try discriminate; split; reflexivity.
    + unfold read_text in Hr. destruct (disk !! _); [eauto | discriminate].
Qed.

(** A directory, and a file that holds the number 5. *)
Lemma init_manual_failures_witness :
  init sample_terminal sample_host disk_odd [u "3"; u "/home/op"]
  = {| said := []; ended := Uncaught IsADirectoryError |} /\
  init sample_terminal sample_host disk_odd [u "3"; u "/srv/number.json"]
  = {| said := []; ended := Uncaught TypeError |} /\
  init sample_terminal sample_host disk_odd [u "3"; u "/srv/none.json"]
  = {| said := [WFileNotFound (u "/srv/none.json")]; ended := Exited 1 disk_odd |}.
Proof.
  split; [|split].
  - apply (proj1 (proj2 (init_manual_failures sample_terminal sample_host disk_odd
                           (u "/home/op") [] ltac:(discriminate)))
             IsADirectoryError); [eexists|]; vm_compute; reflexivity.
  - apply (proj2 (proj2 (proj2 (init_manual_failures sample_terminal sample_host disk_odd
                           (u "/srv/number.json") [] ltac:(discriminate))))
             (u "5") (JInt 5)); vm_compute; reflexivity.
  - apply (proj1 (init_manual_failures sample_terminal sample_host disk_odd
                    (u "/srv/none.json") [] ltac:(discriminate))).
    vm_compute. reflexivity.
Defined.

(** X27.  The third choice accepts exactly the files [install] accepts:
    the wizard shows that the credentials file is valid if and only if
    the validation of [install] passes for the path typed, expanded and
    resolved. *)
Theorem init_manual_accepts_as_install (t : terminal) (h : host) (disk : filesystem)
    (typed : pystr) (rest : list pystr) :
  typed <> [] ->
  In WValid (said (init t h disk (u "3" :: typed :: rest))) <->
  validate_credentials disk (resolve h (expanduser t typed)) = inr tt.
Proof.
  intros Ht. rewrite (init_manual_step t h disk typed rest Ht). cbv zeta.
  unfold validate_credentials, exists_.
  assert (Hno : forall x, x <> WValid -> In WValid [x] <-> False).
  { intros x Hx. split; [intros [E|[]]; congruence | tauto]. }
  assert (Hyes : forall answers,
            In WValid (said (init_finish t h disk [WValid]
                               (resolve h (expanduser t typed)) answers))
            <-> @inr message unit tt = inr tt).
  { intros answers. split; [reflexivity|]. intros _.
    apply init_finish_prefix. left. reflexivity. }
  destruct (disk !! resolve h (expanduser t typed)) as [[m [tx| |es]]|] eqn:Ed.
  - rewrite bool_decide_eq_true_2 by eauto. unfold read_text. rewrite Ed. cbn [negb body].
    destruct (loads tx) as [v|];
      [|cbn [said]; rewrite Hno by discriminate; split; [tauto | discriminate]].
    destruct (py_in (u "accessToken") v) as [[|]|e]; [apply Hyes| |].
    + destruct (py_in (u "refreshToken") v) as [[|]|e]; [apply Hyes| |];
        cbn [said]; (split; [|discriminate]); [rewrite Hno by discriminate; tauto | intros []].
    + cbn [said]. split; [intros [] | discriminate].
  - rewrite bool_decide_eq_true_2 by eauto. unfold read_text. rewrite Ed. cbn [negb said].
    split; [intros [] | discriminate].
  - rewrite bool_decide_eq_true_2 by eauto. unfold read_text. rewrite Ed. cbn [negb said].
    split; [intros [] | discriminate].
  - rewrite bool_decide_eq_false_2 by (intros [? ?]; discriminate).
    unfold read_text. rewrite Ed. cbn [negb said].
    rewrite Hno by discriminate. split; [tauto | discriminate].
Qed.

(** An array that lists the word accessToken passes both. *)
Lemma init_manual_accepts_as_install_witness :
  In WValid (said (init sample_terminal sample_host disk_odd
                     [u "3"; u "/srv/list.json"; u "8080"; u "no"])) /\
  ~ In WValid (said (init sample_terminal sample_host disk_odd
                       [u "3"; u "/srv/bad.json"])).
Proof.
  split.
  - apply (proj2 (init_manual_accepts_as_install sample_terminal sample_host disk_odd
                    (u "/srv/list.json") [u "8080"; u "no"] ltac:(discriminate))).
    vm_compute. reflexivity.
  - intros H.
    apply (proj1 (init_manual_accepts_as_install sample_terminal sample_host disk_odd
                    (u "/srv/bad.json") [] ltac:(discriminate))) in H.
    vm_compute in H. discriminate.
Defined.
